(** * hostelnotifier: the change / keyword detection cycle and its state file

    A shallow embedding of [hostelnotifier.py].  The program polls one web
    page, fingerprints what it got with SHA-256, looks for a keyword, sends an
    e-mail when the page changed or the keyword is there, and keeps a small
    JSON state file between runs.

    Conventions of the embedding.
    - A Python [str] is a list of Unicode code points ([N]); [bytes] is a list
      of [Byte.byte].
    - The case mappings [str.lower], [str.upper] and [str.capitalize] are those
      of Python 3 on the code points U+0000..U+00FF, and on the three code
      points outside that range which these mappings reach (U+0178, U+039C,
      U+03BC).  They are not Python's on other code points; what is proved
      here of the case variations of a keyword is stated for keywords in
      that range ([latin1]).
    - Python values that can sit in the state dictionary are [None], booleans
      and strings; this is what the program itself writes there.
    - The outside world (page fetches, SMTP, the system's sleep call) is an
      input of each cycle; the file system and the calls made to the mail
      transport are part of the [World] that a cycle transforms.  Debug
      printing is not modelled.
    - A state file holding JSON numbers, arrays or nested objects is
      outside the model: [load_state] answers [Unsupported] and [main]
      [Unmodelled], which say nothing about what the program does. *)

From Stdlib Require Import ZArith NArith List String Ascii Strings.Byte Bool Lia.
From stdpp Require Import gmap strings list.

Local Open Scope N_scope.

(** ** Text *)

Definition str := list N.
Definition bytes := list Byte.byte.

(** An ASCII literal of the source as a [str]. *)
Definition lit (s : string) : str :=
  map N_of_ascii (list_ascii_of_string s).

Definition in_range (lo hi c : N) : bool := (lo <=? c) && (c <=? hi).

(** [str.lower] on one code point of U+0000..U+00FF, and on the two code
    points that [str.upper] reaches from there and that have a lower case
    (U+0178, U+039C).  Other code points are left as they are, which is not
    always what Python does with them. *)
Definition lower_cp (c : N) : N :=
  if in_range 65 90 c then c + 32
  else if in_range 192 222 c && negb (c =? 215) then c + 32
  else if c =? 376 then 255
  else if c =? 924 then 956
  else c.

(** [str.upper] on one code point of U+0000..U+00FF (and on U+03BC);
    U+00DF expands to two letters.  Other code points are left as they
    are. *)
Definition upper_cp (c : N) : list N :=
  if in_range 97 122 c then [c - 32]
  else if c =? 181 then [924]
  else if c =? 223 then [83; 83]
  else if in_range 224 254 c && negb (c =? 247) then [c - 32]
  else if c =? 255 then [376]
  else if c =? 956 then [924]
  else [c].

(** The title-case mapping used for the first character by
    [str.capitalize]. *)
Definition title_cp (c : N) : list N :=
  if c =? 223 then [83; 115] else upper_cp c.

Definition lower (s : str) : str := map lower_cp s.

Definition upper (s : str) : str := flat_map upper_cp s.

Definition capitalize (s : str) : str :=
  match s with
  | [] => []
  | c :: rest => title_cp c ++ lower rest
  end.

(** The strings on which the mappings above are Python's. *)
Definition latin1 (s : str) : bool := forallb (fun c => c <=? 255) s.

(** The strings of that range without the two letters whose upper case
    does not lower-case back: the micro sign (U+00B5, upper case U+039C)
    and the sharp s (U+00DF, upper case "SS"). *)
Definition case_reversible (s : str) : bool :=
  forallb (fun c => (c <=? 255) && negb (c =? 181) && negb (c =? 223)) s.

(** [str.isspace] for one code point: the white-space set of CPython. *)
Definition is_space (c : N) : bool :=
  in_range 9 13 c || in_range 28 32 c || (c =? 133) || (c =? 160)
  || (c =? 5760) || in_range 8192 8202 c || (c =? 8232) || (c =? 8233)
  || (c =? 8239) || (c =? 8287) || (c =? 12288).

Fixpoint lstrip (s : str) : str :=
  match s with
  | c :: rest => if is_space c then lstrip rest else s
  | [] => []
  end.

Definition strip (s : str) : str := rev (lstrip (rev (lstrip s))).

Fixpoint startswith (p s : str) : bool :=
  match p, s with
  | [], _ => true
  | a :: p', b :: s' => (a =? b) && startswith p' s'
  | _ :: _, [] => false
  end.

(** [needle in hay] for strings. *)
Fixpoint contains (needle hay : str) : bool :=
  startswith needle hay ||
  match hay with
  | [] => false
  | _ :: hay' => contains needle hay'
  end.

(** [hay.find(needle)], counting from [i]: the least index, or -1. *)
Fixpoint find_from (needle hay : str) (i : Z) : Z :=
  if startswith needle hay then i
  else match hay with
       | [] => (-1)%Z
       | _ :: hay' => find_from needle hay' (i + 1)%Z
       end.

Definition find (hay needle : str) : Z := find_from needle hay 0%Z.

(** [s[lo:hi]] for indices that are not negative (the only ones the program
    uses). *)
Definition slice (s : str) (lo hi : Z) : str :=
  take (Z.to_nat (hi - lo)) (drop (Z.to_nat lo) s).

(** [sep.join(parts)]. *)
Fixpoint join (sep : str) (parts : list str) : str :=
  match parts with
  | [] => []
  | [p] => p
  | p :: rest => p ++ sep ++ join sep rest
  end.

Fixpoint str_eqb (a b : str) : bool :=
  match a, b with
  | [], [] => true
  | x :: a', y :: b' => (x =? y) && str_eqb a' b'
  | _, _ => false
  end.

(** ** UTF-8 *)

Definition byte_of (n : N) : Byte.byte :=
  match Byte.of_N (n mod 256) with
  | Some b => b
  | None => Byte.x00
  end.

(** One code point as UTF-8.  Python raises [UnicodeEncodeError] on a lone
    surrogate; numbers above U+10FFFF are no code points and are refused the
    same way. *)
Definition encode_cp (c : N) : option bytes :=
  if c <? 128 then Some [byte_of c]
  else if c <? 2048 then
    Some [byte_of (192 + c / 64); byte_of (128 + c mod 64)]
  else if in_range 55296 57343 c then None
  else if c <? 65536 then
    Some [byte_of (224 + c / 4096); byte_of (128 + (c / 64) mod 64);
          byte_of (128 + c mod 64)]
  else if c <? 1114112 then
    Some [byte_of (240 + c / 262144); byte_of (128 + (c / 4096) mod 64);
          byte_of (128 + (c / 64) mod 64); byte_of (128 + c mod 64)]
  else None.

(** [s.encode('utf-8')]; [None] stands for the exception. *)
Fixpoint encode_utf8 (s : str) : option bytes :=
  match s with
  | [] => Some []
  | c :: rest =>
      match encode_cp c, encode_utf8 rest with
      | Some b, Some bs => Some (b ++ bs)
      | _, _ => None
      end
  end.

Definition is_cont (b : N) : bool := in_range 128 191 b.

(** The second byte of a three-byte or four-byte sequence is further
    restricted after the lead bytes E0, ED, F0 and F4. *)
Definition second_ok (lead b2 : N) : bool :=
  is_cont b2 &&
  (if lead =? 224 then 160 <=? b2
   else if lead =? 237 then b2 <? 160
   else if lead =? 240 then 144 <=? b2
   else if lead =? 244 then b2 <? 144
   else true).

(** [content.decode("utf-8", "ignore")]: CPython's decoder, dropping every
    ill-formed subsequence (an invalid lead byte alone, a truncated sequence
    up to the byte that breaks it, an incomplete tail altogether). *)
Fixpoint decode_utf8_ignore (bs : bytes) : str :=
  match bs with
  | [] => []
  | x1 :: r1 =>
      let b1 := Byte.to_N x1 in
      if b1 <? 128 then b1 :: decode_utf8_ignore r1
      else if b1 <? 194 then decode_utf8_ignore r1
      else if b1 <? 224 then
        match r1 with
        | [] => []
        | x2 :: r2 =>
            let b2 := Byte.to_N x2 in
            if is_cont b2
            then ((b1 - 192) * 64 + (b2 - 128)) :: decode_utf8_ignore r2
            else decode_utf8_ignore r1
        end
      else if b1 <? 240 then
        match r1 with
        | [] => []
        | x2 :: r2 =>
            let b2 := Byte.to_N x2 in
            if negb (second_ok b1 b2) then decode_utf8_ignore r1
            else
              match r2 with
              | [] => []
              | x3 :: r3 =>
                  let b3 := Byte.to_N x3 in
                  if is_cont b3
                  then ((b1 - 224) * 4096 + (b2 - 128) * 64 + (b3 - 128))
                         :: decode_utf8_ignore r3
                  else decode_utf8_ignore r2
              end
        end
      else if b1 <? 245 then
        match r1 with
        | [] => []
        | x2 :: r2 =>
            let b2 := Byte.to_N x2 in
            if negb (second_ok b1 b2) then decode_utf8_ignore r1
            else
              match r2 with
              | [] => []
              | x3 :: r3 =>
                  let b3 := Byte.to_N x3 in
                  if negb (is_cont b3) then decode_utf8_ignore r2
                  else
                    match r3 with
                    | [] => []
                    | x4 :: r4 =>
                        let b4 := Byte.to_N x4 in
                        if is_cont b4
                        then ((b1 - 240) * 262144 + (b2 - 128) * 4096
                              + (b3 - 128) * 64 + (b4 - 128))
                               :: decode_utf8_ignore r4
                        else decode_utf8_ignore r3
                    end
              end
        end
      else decode_utf8_ignore r1
  end.

(** ** SHA-256 (FIPS 180-4), on 32-bit words kept in [Z] *)

Module SHA256.
Local Open Scope Z_scope.

Definition w32 (x : Z) : Z := x mod 2 ^ 32.
Definition add32 (x y : Z) : Z := w32 (x + y).
Definition rotr (n x : Z) : Z :=
  Z.lor (Z.shiftr x n) (w32 (Z.shiftl x (32 - n))).
Definition not32 (x : Z) : Z := Z.lxor x (2 ^ 32 - 1).

Definition Ch (x y z : Z) : Z :=
  Z.lxor (Z.land x y) (Z.land (not32 x) z).
Definition Maj (x y z : Z) : Z :=
  Z.lxor (Z.lxor (Z.land x y) (Z.land x z)) (Z.land y z).
Definition bsig0 (x : Z) : Z :=
  Z.lxor (Z.lxor (rotr 2 x) (rotr 13 x)) (rotr 22 x).
Definition bsig1 (x : Z) : Z :=
  Z.lxor (Z.lxor (rotr 6 x) (rotr 11 x)) (rotr 25 x).
Definition ssig0 (x : Z) : Z :=
  Z.lxor (Z.lxor (rotr 7 x) (rotr 18 x)) (Z.shiftr x 3).
Definition ssig1 (x : Z) : Z :=
  Z.lxor (Z.lxor (rotr 17 x) (rotr 19 x)) (Z.shiftr x 10).

(** The first 64 primes. *)
Definition primes : list Z :=
  [ 2; 3; 5; 7; 11; 13; 17; 19; 23; 29; 31; 37; 41; 43; 47; 53;
    59; 61; 67; 71; 73; 79; 83; 89; 97; 101; 103; 107; 109; 113; 127; 131;
    137; 139; 149; 151; 157; 163; 167; 173; 179; 181; 191; 193; 197; 199;
    211; 223; 227; 229; 233; 239; 241; 251; 257; 263; 269; 271; 277; 281;
    283; 293; 307; 311 ].

(** The integer cube root below [2 * bit], one binary digit at a time. *)
Fixpoint cube_root (digits : nat) (bit acc n : Z) : Z :=
  match digits with
  | O => acc
  | S digits' =>
      let c := acc + bit in
      cube_root digits' (bit / 2) (if c * c * c <=? n then c else acc) n
  end.

(** The round constants: the first 32 bits of the fractional parts of the
    cube roots of the first 64 primes. *)
Definition K : list Z :=
  Eval vm_compute in
    map (fun p => w32 (cube_root 36 (2 ^ 35) 0 (p * 2 ^ 96))) primes.

(** The initial hash value: the same of the square roots of the first 8
    primes. *)
Definition H0 : list Z :=
  Eval vm_compute in
    map (fun p => w32 (Z.sqrt (p * 2 ^ 64))) (take 8 primes).

(** The message followed by 0x80, zero bytes and its length in bits on
    eight bytes, a multiple of 64 bytes in all. *)
Definition be_bytes (n : nat) (x : Z) : list Z :=
  map (fun i => (x / 2 ^ (8 * Z.of_nat i)) mod 256) (rev (seq 0 n)).

Definition pad (msg : list Z) : list Z :=
  let len := Z.of_nat (length msg) in
  msg ++ [128] ++ repeat 0 (Z.to_nat ((55 - len) mod 64))
      ++ be_bytes 8 (8 * len).

Fixpoint words (fuel : nat) (bs : list Z) : list Z :=
  match fuel, bs with
  | S fuel', a :: b :: c :: d :: rest =>
      (((a * 256 + b) * 256 + c) * 256 + d) :: words fuel' rest
  | _, _ => []
  end.

(** The message schedule, newest word first. *)
Fixpoint schedule (n : nat) (w : list Z) : list Z :=
  match n with
  | O => w
  | S n' =>
      let nw := add32 (add32 (ssig1 (nth 1 w 0)) (nth 6 w 0))
                      (add32 (ssig0 (nth 14 w 0)) (nth 15 w 0)) in
      schedule n' (nw :: w)
  end.

Definition round (s : list Z) (kw : Z * Z) : list Z :=
  match s with
  | [a; b; c; d; e; f; g; h] =>
      let t1 := add32 (add32 (add32 h (bsig1 e)) (add32 (Ch e f g) (fst kw)))
                      (snd kw) in
      let t2 := add32 (bsig0 a) (Maj a b c) in
      [add32 t1 t2; a; b; c; add32 d t1; e; f; g]
  | _ => s
  end.

Definition compress (h : list Z) (block : list Z) : list Z :=
  let w := rev (schedule 48 (rev block)) in
  let s := fold_left round (combine K w) h in
  map (fun p => add32 (fst p) (snd p)) (combine h s).

Fixpoint blocks (fuel : nat) (h : list Z) (ws : list Z) : list Z :=
  match fuel with
  | O => h
  | S fuel' =>
      match ws with
      | [] => h
      | _ => blocks fuel' (compress h (take 16 ws)) (drop 16 ws)
      end
  end.

Definition digest (msg : bytes) : list Z :=
  let p := pad (map (fun b => Z.of_N (Byte.to_N b)) msg) in
  let ws := words (length p) p in
  flat_map (be_bytes 4) (blocks (length ws) H0 ws).

Definition hex_digit (d : Z) : N :=
  if d <? 10 then Z.to_N (48 + d) else Z.to_N (87 + d).

Definition hexdigest (msg : bytes) : str :=
  flat_map (fun b => [hex_digit (b / 16); hex_digit (b mod 16)]) (digest msg).
End SHA256.

(** [compute_hash(content)]: the hexadecimal SHA-256 digest. *)
Definition compute_hash (content : bytes) : str := SHA256.hexdigest content.

Definition ascii_bytes (s : string) : bytes :=
  map byte_of_ascii (list_ascii_of_string s).

(** ** Python values and the state dictionary *)

Inductive pyval : Type :=
| PNone
| PBool (b : bool)
| PStr (s : str).

(** [a == b] on these values. *)
Definition py_eqb (a b : pyval) : bool :=
  match a, b with
  | PNone, PNone => true
  | PBool x, PBool y => Bool.eqb x y
  | PStr x, PStr y => str_eqb x y
  | _, _ => false
  end.

(** [v is None]. *)
Definition is_none (v : pyval) : bool :=
  match v with PNone => true | _ => false end.

(** A [dict] with string keys, in insertion order. *)
Definition dict := list (str * pyval).

(** [d.get(k, default)]. *)
Fixpoint dict_get (d : dict) (k : str) (default : pyval) : pyval :=
  match d with
  | [] => default
  | (k', v) :: rest => if str_eqb k' k then v else dict_get rest k default
  end.

(** [d[k] = v]: an existing key keeps its place, a new one goes last. *)
Fixpoint dict_set (d : dict) (k : str) (v : pyval) : dict :=
  match d with
  | [] => [(k, v)]
  | (k', v') :: rest =>
      if str_eqb k' k then (k', v) :: rest else (k', v') :: dict_set rest k v
  end.

(** ** Exceptions *)

Inductive exn : Type :=
| JSONDecodeError
| RequestException
| OtherException
| Unsupported      (* input that Python accepts and this model does not cover *)
| OutOfFuel.

Inductive result (A : Type) : Type :=
| Ok (a : A)
| Raise (e : exn).
Arguments Ok {A} a.
Arguments Raise {A} e.

Definition bind {A B} (r : result A) (k : A -> result B) : result B :=
  match r with
  | Ok a => k a
  | Raise e => Raise e
  end.

Notation "'do' x <- r ; k" := (bind r (fun x => k))
  (at level 10, x name, r at level 100, k at level 200).
Notation "'do' ' p <- r ; k" := (bind r (fun x => let p := x in k))
  (at level 10, p pattern, r at level 100, k at level 200).

(** ** JSON text: [json.dump(state, f, indent=2)] and [json.load(f)] *)

Module Json.

Definition hex_char (d : N) : N := if d <? 10 then 48 + d else 87 + d.

(** "\uXXXX" with four lower-case hexadecimal digits. *)
Definition u_escape (c : N) : str :=
  [92; 117; hex_char (c / 4096 mod 16); hex_char (c / 256 mod 16);
   hex_char (c / 16 mod 16); hex_char (c mod 16)].

(** One character of a string, as [ensure_ascii=True] writes it. *)
Definition escape_cp (c : N) : str :=
  if c =? 34 then [92; 34]
  else if c =? 92 then [92; 92]
  else if c =? 10 then [92; 110]
  else if c =? 13 then [92; 114]
  else if c =? 9 then [92; 116]
  else if c =? 8 then [92; 98]
  else if c =? 12 then [92; 102]
  else if in_range 32 126 c then [c]
  else if c <? 65536 then u_escape c
  else u_escape (55296 + (c - 65536) / 1024 mod 1024)
       ++ u_escape (56320 + (c - 65536) mod 1024).

Definition dump_string (s : str) : str :=
  [34] ++ flat_map escape_cp s ++ [34].

Definition dump_value (v : pyval) : str :=
  match v with
  | PNone => lit "null"
  | PBool true => lit "true"
  | PBool false => lit "false"
  | PStr s => dump_string s
  end.

Definition dump_item (kv : str * pyval) : str :=
  dump_string (fst kv) ++ lit ": " ++ dump_value (snd kv).

(** The text of a dictionary with [indent=2]: one item per line. *)
Definition dumps (d : dict) : str :=
  match d with
  | [] => lit "{}"
  | _ => lit "{" ++ [10; 32; 32]
         ++ join [44; 10; 32; 32] (map dump_item d)
         ++ [10] ++ lit "}"
  end.

Definition is_ws (c : N) : bool :=
  (c =? 32) || (c =? 9) || (c =? 10) || (c =? 13).

Fixpoint skip_ws (s : str) : str :=
  match s with
  | c :: rest => if is_ws c then skip_ws rest else s
  | [] => []
  end.

Definition hex_val (c : N) : option N :=
  if in_range 48 57 c then Some (c - 48)
  else if in_range 97 102 c then Some (c - 87)
  else if in_range 65 70 c then Some (c - 55)
  else None.

Definition hex4 (a b c d : N) : option N :=
  match hex_val a, hex_val b, hex_val c, hex_val d with
  | Some x, Some y, Some z, Some w => Some (((x * 16 + y) * 16 + z) * 16 + w)
  | _, _, _, _ => None
  end.

Definition simple_escape (e : N) : option N :=
  if e =? 34 then Some 34
  else if e =? 92 then Some 92
  else if e =? 47 then Some 47
  else if e =? 98 then Some 8
  else if e =? 102 then Some 12
  else if e =? 110 then Some 10
  else if e =? 114 then Some 13
  else if e =? 116 then Some 9
  else None.

Definition push (c : N) (r : result (str * str)) : result (str * str) :=
  do '(s, rest) <- r; Ok (c :: s, rest).

(** [scanstring] in strict mode, from just after the opening quote: the
    string and what follows its closing quote. *)
Fixpoint scan_string (s : str) : result (str * str) :=
  match s with
  | [] => Raise JSONDecodeError
  | c :: r =>
      if c =? 34 then Ok ([], r)
      else if c =? 92 then
        match r with
        | [] => Raise JSONDecodeError
        | e :: r1 =>
            if e =? 117 then
              match r1 with
              | h1 :: h2 :: h3 :: h4 :: r2 =>
                  match hex4 h1 h2 h3 h4 with
                  | None => Raise JSONDecodeError
                  | Some u =>
                      if in_range 55296 56319 u then
                        match r2 with
                        | a :: b :: l1 :: l2 :: l3 :: l4 :: r3 =>
                            match hex4 l1 l2 l3 l4 with
                            | Some lo =>
                                if (a =? 92) && (b =? 117)
                                   && in_range 56320 57343 lo
                                then push (65536 + (u - 55296) * 1024
                                           + (lo - 56320)) (scan_string r3)
                                else push u (scan_string r2)
                            | None => push u (scan_string r2)
                            end
                        | _ => push u (scan_string r2)
                        end
                      else push u (scan_string r2)
                  end
              | _ => Raise JSONDecodeError
              end
            else
              match simple_escape e with
              | Some ch => push ch (scan_string r1)
              | None => Raise JSONDecodeError
              end
        end
      else if c <? 32 then Raise JSONDecodeError
      else push c (scan_string r)
  end.

Definition is_digit (c : N) : bool := in_range 48 57 c.

(** [scan_once]: one value.  Numbers, arrays, nested objects and the
    non-standard constants are outside the model. *)
Definition scan_once (s : str) : result (pyval * str) :=
  match s with
  | [] => Raise JSONDecodeError
  | c :: r =>
      if c =? 34 then (do '(v, rest) <- scan_string r; Ok (PStr v, rest))
      else if startswith (lit "null") s then Ok (PNone, drop 4 s)
      else if startswith (lit "true") s then Ok (PBool true, drop 4 s)
      else if startswith (lit "false") s then Ok (PBool false, drop 5 s)
      else if (c =? 123) || (c =? 91) || is_digit c
              || startswith (lit "NaN") s || startswith (lit "Infinity") s
      then Raise Unsupported
      else if c =? 45 then
        match r with
        | d :: _ => if is_digit d || startswith (lit "Infinity") r
                    then Raise Unsupported else Raise JSONDecodeError
        | [] => Raise JSONDecodeError
        end
      else Raise JSONDecodeError
  end.

(** The members of an object, from just after the opening quote of a key,
    up to and including the closing brace. *)
Fixpoint scan_members (fuel : nat) (s : str) (pairs : list (str * pyval))
  : result (list (str * pyval) * str) :=
  match fuel with
  | O => Raise OutOfFuel
  | S fuel' =>
      do '(key, s1) <- scan_string s;
      match skip_ws s1 with
      | colon :: s2 =>
          if colon =? 58 then
            do '(value, s3) <- scan_once (skip_ws s2);
            let pairs' := pairs ++ [(key, value)] in
            match skip_ws s3 with
            | next :: s4 =>
                if next =? 125 then Ok (pairs', s4)
                else if next =? 44 then
                  match skip_ws s4 with
                  | quote :: s5 =>
                      if quote =? 34 then scan_members fuel' s5 pairs'
                      else Raise JSONDecodeError
                  | [] => Raise JSONDecodeError
                  end
                else Raise JSONDecodeError
            | [] => Raise JSONDecodeError
            end
          else Raise JSONDecodeError
      | [] => Raise JSONDecodeError
      end
  end.

(** [JSONObject], from just after the opening brace. *)
Definition scan_object (s : str) : result (list (str * pyval) * str) :=
  match skip_ws s with
  | c :: rest =>
      if c =? 125 then Ok ([], rest)
      else if c =? 34 then scan_members (S (length rest)) rest []
      else Raise JSONDecodeError
  | [] => Raise JSONDecodeError
  end.

(** [dict(pairs)]: a repeated key keeps its first place and its last
    value. *)
Definition dict_of_pairs (pairs : list (str * pyval)) : dict :=
  fold_left (fun d kv => dict_set d (fst kv) (snd kv)) pairs [].

(** [json.loads] for a text whose top-level value is an object. *)
Definition loads (text : str) : result dict :=
  match skip_ws text with
  | c :: s =>
      if c =? 123 then
        do '(pairs, rest) <- scan_object s;
        match skip_ws rest with
        | [] => Ok (dict_of_pairs pairs)
        | _ => Raise JSONDecodeError
        end
      else do _ <- scan_once (c :: s); Raise Unsupported
  | [] => Raise JSONDecodeError
  end.

End Json.

(** ** Configuration, memory and the outside world *)

(** The keys of [config.json] that [main] reads (the SMTP settings only
    matter inside the mail transport). *)
Record Config : Type := {
  url : str;
  check_interval_seconds : Z;
  use_keyword : bool;
  config_keyword : str;
  timeout_seconds : Z;
  user_agent : str;
  state_file : string;
  single_run : bool
}.

(** [keyword = cfg.get("keyword", "").lower()]. *)
Definition keyword (cfg : Config) : str := lower (config_keyword cfg).

(** The variables of [main] that live across cycles. *)
Record Mem : Type := {
  state : dict;
  last_hash : pyval;
  last_keyword_found : pyval
}.

Inductive io_event : Type :=
| Saved (path : string) (text : str)
| Mailed (subject body : str) (delivered : bool).

(** Files by path, and the writes and mail calls made so far. *)
Record World : Type := {
  files : gmap string str;
  trace : list io_event
}.

(** What the outside answers during one cycle: the rendered page text or
    an exception, the plain HTTP body or an exception, whether the mail
    transport delivers, and whether the system's sleep call that follows
    the cycle goes through (it fails for a length that the system's clock
    cannot hold). *)
Record Env : Type := {
  js_page : result str;
  http_page : result bytes;
  smtp_ok : bool;
  sleep_ok : bool
}.

Definition load_state (path : string) (w : World) : result dict :=
  match files w !! path with
  | None => Ok []
  | Some text => Json.loads text
  end.

Definition save_state (path : string) (st : dict) (w : World) : World :=
  {| files := <[path := Json.dumps st]> (files w);
     trace := trace w ++ [Saved path (Json.dumps st)] |}.

(** [send_email] never raises: it reports delivery as a boolean. *)
Definition send_email (ok : bool) (subject body : str) (w : World)
  : bool * World :=
  (ok, {| files := files w; trace := trace w ++ [Mailed subject body ok] |}).

Definition build_message (url reason sample : str) : str :=
  let lines := [lit "Hostel site update"; lit "URL: " ++ url;
                lit "Reason: " ++ reason] in
  let lines := match sample with
               | [] => lines
               | _ => lines ++ [lit "Sample: " ++ sample]
               end in
  join [10] lines.

(** ** One check cycle *)

(** What the fetch part of a cycle binds. *)
Record Observation : Type := {
  text_lower : str;
  content : bytes;
  page_hash : str
}.

Definition fetch_fallback (env : Env) : result Observation :=
  do content <- http_page env;
  Ok {| text_lower := lower (decode_utf8_ignore content);
        content := content;
        page_hash := compute_hash content |}.

(** The rendered text first; any exception there, also one from encoding
    it, leads to the plain HTTP request. *)
Definition observe (env : Env) : result Observation :=
  match js_page env with
  | Ok text_content =>
      match encode_utf8 text_content with
      | Some content =>
          Ok {| text_lower := lower text_content;
                content := content;
                page_hash := compute_hash content |}
      | None => fetch_fallback env
      end
  | Raise _ => fetch_fallback env
  end.

Record Detection : Type := {
  content_changed : bool;
  keyword_found : bool;
  reasons : list str;
  samples : list str
}.

(** [changed = content_changed or keyword_found]. *)
Definition changed (d : Detection) : bool :=
  content_changed d || keyword_found d.

Definition k_last_hash : str := lit "last_hash".
Definition k_last_keyword_found : str := lit "last_keyword_found".

Definition change_reason : str := lit "Page content changed".

Definition change_sample (o : Observation) : str :=
  lit "Content preview: " ++ strip (slice (text_lower o) 0 200).

(** Step 1: the content check. *)
Definition check_content (cfg : Config) (o : Observation) (m : Mem) (w : World)
  : Mem * World * Detection :=
  if is_none (last_hash m) then
    let st := dict_set (state m) k_last_hash (PStr (page_hash o)) in
    ({| state := st; last_hash := PStr (page_hash o);
        last_keyword_found := last_keyword_found m |},
     save_state (state_file cfg) st w,
     {| content_changed := false; keyword_found := false;
        reasons := []; samples := [] |})
  else if negb (py_eqb (PStr (page_hash o)) (last_hash m)) then
    ({| state := state m; last_hash := PStr (page_hash o);
        last_keyword_found := last_keyword_found m |},
     w,
     {| content_changed := true; keyword_found := false;
        reasons := [change_reason]; samples := [change_sample o] |})
  else
    (m, w,
     {| content_changed := false; keyword_found := false;
        reasons := []; samples := [] |}).

Definition search_variations (kw : str) : list str :=
  [ kw;
    upper kw;
    capitalize kw;
    lit " " ++ kw ++ lit " ";
    lit ">" ++ kw ++ lit "<";
    [34] ++ kw ++ [34];
    lit "'" ++ kw ++ lit "'" ].

(** The [for variation in search_variations] loop: the first variation
    whose lower-case form occurs in the text, if any. *)
Fixpoint first_variation (variations : list str) (text : str) : option str :=
  match variations with
  | [] => None
  | variation :: rest =>
      if contains (lower variation) text then Some variation
      else first_variation rest text
  end.

(** [found] after the loop. *)
Definition found (kw text : str) : bool :=
  match first_variation (search_variations kw) text with
  | Some _ => true
  | None => false
  end.

(** The single search the specification compares the loop with, in its
    words: a case-insensitive substring match, the keyword lower-cased and
    looked for in the lower-cased page text.  It is not part of the program. *)
Definition ci_search (kw text : str) : bool :=
  contains (lower kw) (lower text).

(** The other usual meaning of a case-insensitive match, by [str.casefold]
    (on the code points of the case tables above); not part of the program
    either. *)
Definition casefold_cp (c : N) : list N :=
  if c =? 223 then [115; 115]
  else if c =? 181 then [956]
  else [lower_cp c].

Definition casefold (s : str) : str := flat_map casefold_cp s.

Definition cf_search (kw text : str) : bool :=
  contains (casefold kw) (casefold text).

Definition keyword_reason (kw : str) : str :=
  lit "Keyword '" ++ kw ++ lit "' found on page".

Definition keyword_sample (text keyword_used : str) : str :=
  let idx := find text (lower keyword_used) in
  let start := Z.max 0 (idx - 60) in
  lit "Keyword context: " ++ strip (slice text start (start + 200)).

(** Step 2: the keyword check, when enabled. *)
Definition check_keyword (cfg : Config) (o : Observation) (m : Mem)
  (d : Detection) : Mem * Detection :=
  if use_keyword cfg then
    match first_variation (search_variations (keyword cfg)) (text_lower o) with
    | Some keyword_used =>
        ({| state := state m; last_hash := last_hash m;
            last_keyword_found := PBool true |},
         {| content_changed := content_changed d; keyword_found := true;
            reasons := reasons d ++ [keyword_reason (keyword cfg)];
            samples := samples d ++ [keyword_sample (text_lower o) keyword_used] |})
    | None =>
        ({| state := state m; last_hash := last_hash m;
            last_keyword_found := PBool false |}, d)
    end
  else (m, d).

Definition subject : str := lit "Hostel site update detected".

Definition message_of (cfg : Config) (d : Detection) : str :=
  build_message (url cfg) (join (lit " | ") (reasons d))
    (join [10; 10] (samples d)).

(** Step 3: mail and persist, only when something was detected. *)
Definition notify (cfg : Config) (env : Env) (m : Mem) (w : World)
  (d : Detection) : Mem * World :=
  if changed d then
    let '(sent, w1) := send_email (smtp_ok env) subject (message_of cfg d) w in
    let st := dict_set (dict_set (state m) k_last_hash (last_hash m))
                k_last_keyword_found (last_keyword_found m) in
    ({| state := st; last_hash := last_hash m;
        last_keyword_found := last_keyword_found m |},
     save_state (state_file cfg) st w1)
  else (m, w).

(** The body of the [while] loop up to the [except] clauses: a failed fetch
    leaves everything as it was. *)
Definition cycle (cfg : Config) (env : Env) (m : Mem) (w : World)
  : Mem * World * result Detection :=
  match observe env with
  | Raise e => (m, w, Raise e)
  | Ok o =>
      let '(m1, w1, d1) := check_content cfg o m w in
      let '(m2, d2) := check_keyword cfg o m1 d1 in
      let '(m3, w3) := notify cfg env m2 w1 d2 in
      (m3, w3, Ok d2)
  end.

(** ** The run loop *)

(** How far a process got: still in its loop, ended with an exit code, or
    stopped where the model does not follow the program. *)
Inductive status : Type :=
| Running
| Exited (code : Z)
| Unmodelled.

(** The lengths that [time.sleep] takes: it raises [ValueError] for a
    negative one and [OverflowError] for one that does not fit its signed
    64-bit count of nanoseconds. *)
Definition sleep_accepts (interval : Z) : bool :=
  ((0 <=? interval) && (interval * 10 ^ 9 <=? 2 ^ 63 - 1))%Z.

(** [time.sleep(interval)]: whether it returns.  It raises when it does
    not take the length, or when the system's call fails. *)
Definition sleep (interval : Z) (env : Env) : bool :=
  sleep_accepts interval && sleep_ok env.

(** [while run_once or not single_run], driven by the answers of the outside
    for the successive cycles; [Running] when these are used up.  The sleep
    between two cycles is outside the [try]: an exception there ends the
    process, with code 1. *)
Fixpoint loop (cfg : Config) (envs : list Env) (m : Mem) (w : World)
  : Mem * World * status :=
  match envs with
  | [] => (m, w, Running)
  | env :: rest =>
      let '(m', w', _) := cycle cfg env m w in
      if single_run cfg then (m', w', Exited 0)
      else if sleep (check_interval_seconds cfg) env then loop cfg rest m' w'
      else (m', w', Exited 1)
  end.

(** The variables of [main] right after [load_state]. *)
Definition boot (st : dict) : Mem :=
  {| state := st;
     last_hash := dict_get st k_last_hash PNone;
     last_keyword_found := dict_get st k_last_keyword_found (PBool false) |}.

(** [main] from the loaded configuration on; a decode error of [load_state]
    is not caught and ends the process with code 1.  On a state file that
    the model of [json.load] does not cover, nothing is said. *)
Definition main (cfg : Config) (envs : list Env) (w : World)
  : option Mem * World * status :=
  match load_state (state_file cfg) w with
  | Raise JSONDecodeError => (None, w, Exited 1)
  | Raise _ => (None, w, Unmodelled)
  | Ok st =>
      let '(m, w', s) := loop cfg envs (boot st) w in (Some m, w', s)
  end.

(** ** Shapes of strings and state dictionaries *)

(** A character that JSON writes as itself: printable ASCII other than the
    double quote and the backslash. *)
Definition plain_cp (c : N) : bool :=
  in_range 32 126 c && negb (c =? 34) && negb (c =? 92).

Definition plain (s : str) : bool := forallb plain_cp s.

Definition plain_value (v : pyval) : bool :=
  match v with
  | PStr s => plain s
  | _ => true
  end.

Definition plain_item (kv : str * pyval) : bool :=
  plain (fst kv) && plain_value (snd kv).

Definition is_hex_cp (c : N) : bool := in_range 48 57 c || in_range 97 102 c.

Definition is_hex (s : str) : bool := forallb is_hex_cp s.

(** An entry of the state file as the program writes it: the fingerprint
    as a hexadecimal string, or the keyword flag as a boolean. *)
Definition state_item (kv : str * pyval) : bool :=
  match snd kv with
  | PStr h => str_eqb (fst kv) k_last_hash && is_hex h
  | PBool _ => str_eqb (fst kv) k_last_keyword_found
  | PNone => false
  end.

(** [k in d]. *)
Fixpoint has_key (d : dict) (k : str) : bool :=
  match d with
  | [] => false
  | (k', _) :: rest => str_eqb k' k || has_key rest k
  end.

Fixpoint distinct_keys (d : dict) : bool :=
  match d with
  | [] => true
  | (k, _) :: rest => negb (has_key rest k) && distinct_keys rest
  end.

(** The logical state: a mapping with an optional [last_hash] and an
    optional [last_keyword_found], each key at most once. *)
Definition monitor_state (d : dict) : bool :=
  distinct_keys d && forallb state_item d.

(** The items of a non-empty dictionary as [Json.dumps] lays them out, from
    just after the opening quote of the first key to the closing brace. *)
Fixpoint members_text (kv : str * pyval) (more : list (str * pyval)) : str :=
  fst kv ++ [34] ++ lit ": " ++ Json.dump_value (snd kv) ++
  match more with
  | [] => [10; 125]
  | kv' :: more' => [44; 10; 32; 32; 34] ++ members_text kv' more'
  end.

(** ** Histories of the state file *)

Definition completed (r : result Detection) : bool :=
  match r with
  | Ok _ => true
  | Raise _ => false
  end.

(** The memory and world that processes sharing the state file [path] can
    reach, with whether some cycle has completed so far: the first process
    starts where the file does not exist; a cycle runs (under any
    configuration with that state file); a process starts again, from what
    the file holds. *)
Inductive reachable (path : string) : Mem -> World -> bool -> Prop :=
| reach_first (w : World) :
    files w !! path = None ->
    reachable path (boot []) w false
| reach_cycle (cfg : Config) (env : Env) (m : Mem) (w : World) (seen : bool)
    (m' : Mem) (w' : World) (r : result Detection) :
    reachable path m w seen ->
    state_file cfg = path ->
    cycle cfg env m w = (m', w', r) ->
    reachable path m' w' (seen || completed r)
| reach_start (m : Mem) (w : World) (seen : bool) (st : dict) :
    reachable path m w seen ->
    load_state path w = Ok st ->
    reachable path (boot st) w seen.

(** What holds of memory and world once a cycle has completed on the
    observation [o]: the fingerprint in memory is the one of [o]; with
    keyword matching the flag in memory is what the search gives on [o]; and
    if the keyword is found, the dictionary holds both values and the state
    file holds the dictionary. *)
Definition settled (cfg : Config) (o : Observation) (m : Mem) (w : World)
  : Prop :=
  last_hash m = PStr (page_hash o) /\
  (use_keyword cfg = true ->
   last_keyword_found m = PBool (found (keyword cfg) (text_lower o))) /\
  (use_keyword cfg = true -> found (keyword cfg) (text_lower o) = true ->
   (exists d0, state m = dict_set (dict_set d0 k_last_hash (last_hash m))
                           k_last_keyword_found (last_keyword_found m)) /\
   files w !! state_file cfg = Some (Json.dumps (state m))).

(** What every reachable memory and world satisfy (proved below): the
    fingerprint in memory is [None] exactly when no cycle has completed; it is
    the one of the dictionary; the dictionary is a logical state; the flag
    in memory is a boolean; and the state file exists once a cycle has
    completed and then holds the dictionary. *)
Record consistent (path : string) (m : Mem) (w : World) (seen : bool)
  : Prop := {
  inv_none : last_hash m = PNone <-> seen = false;
  inv_dict : last_hash m = dict_get (state m) k_last_hash PNone;
  inv_shape : monitor_state (state m) = true;
  inv_flag : exists b, last_keyword_found m = PBool b;
  inv_file : files w !! path
             = if seen then Some (Json.dumps (state m)) else None;
  inv_fresh : seen = false -> state m = []
}.

(** What holds between the content check and the notification of a cycle
    that observed [o]. *)
Record checked (path : string) (o : Observation) (m : Mem) (w : World)
  (d : Detection) : Prop := {
  mid_hash : last_hash m = PStr (page_hash o);
  mid_shape : monitor_state (state m) = true;
  mid_flag : exists b, last_keyword_found m = PBool b;
  mid_sync : content_changed d = false ->
             dict_get (state m) k_last_hash PNone = last_hash m /\
             files w !! path = Some (Json.dumps (state m))
}.

(** ** Concrete scenarios *)

Module Scenario.

Definition cfg_str (kw_enabled : bool) (kw : str) (once : bool) : Config :=
  {| url := lit "https://hostel.example/rooms";
     check_interval_seconds := 300;
     use_keyword := kw_enabled;
     config_keyword := kw;
     timeout_seconds := 15;
     user_agent := lit "hostel-notifier/1.0";
     state_file := "last_state.json";
     single_run := once |}.

(** Continuous monitoring with [check_interval_seconds] set to
    [interval]. *)
Definition cfg_every (interval : Z) : Config :=
  {| url := lit "https://hostel.example/rooms";
     check_interval_seconds := interval;
     use_keyword := true;
     config_keyword := lit "vacancy";
     timeout_seconds := 15;
     user_agent := lit "hostel-notifier/1.0";
     state_file := "last_state.json";
     single_run := false |}.

Definition cfg (kw_enabled : bool) (kw : string) (once : bool) : Config :=
  cfg_str kw_enabled (lit kw) once.

(** The renderer returns [text]; the plain request is not needed. *)
Definition rendered (text : string) (mail_ok : bool) : Env :=
  {| js_page := Ok (lit text);
     http_page := Raise RequestException;
     smtp_ok := mail_ok;
     sleep_ok := true |}.

(** Both fetches raise. *)
Definition unreachable : Env :=
  {| js_page := Raise OtherException;
     http_page := Raise RequestException;
     smtp_ok := true;
     sleep_ok := true |}.

(** What [observe] binds for a rendered ASCII page. *)
Definition seen (text : string) : Observation :=
  {| text_lower := lower (lit text);
     content := ascii_bytes text;
     page_hash := compute_hash (ascii_bytes text) |}.

Definition fresh_world : World := {| files := ∅; trace := [] |}.

Definition fresh_mem : Mem := boot [].

(** The state dictionary of a run that saw [text] and stored [flag]. *)
Definition stored (text : string) (flag : bool) : dict :=
  [ (k_last_hash, PStr (compute_hash (ascii_bytes text)));
    (k_last_keyword_found, PBool flag) ].

(** The world in which that dictionary is in the state file. *)
Definition world_after (text : string) (flag : bool) : World :=
  save_state "last_state.json" (stored text flag) fresh_world.

(** Two cycles in a row on the same rendered page, from a fresh start:
    the outcome of the second. *)
Definition twice (c : Config) (env : Env) : Mem * World * result Detection :=
  let '(m1, w1, _) := cycle c env fresh_mem fresh_world in
  cycle c env m1 w1.

(** The first cycle of a fresh process on a page without the keyword. *)
Definition first_cycle : Mem * World * result Detection :=
  cycle (cfg true "vacancy" false) (rendered "Rooms available" true)
    fresh_mem fresh_world.

(** A first cycle that finds its keyword, and what it detects. *)
Definition notifying_cycle : Mem * World * result Detection :=
  cycle (cfg true "rooms" false) (rendered "Rooms available" true)
    fresh_mem fresh_world.

Definition keyword_detection : Detection :=
  {| content_changed := false;
     keyword_found := true;
     reasons := [keyword_reason (lit "rooms")];
     samples := [keyword_sample (lower (lit "Rooms available")) (lit "rooms")] |}.


End Scenario.

(** ** Proof steps *)


Ltac cycle_fields :=
  cbn [content_changed keyword_found reasons samples state last_hash
       last_keyword_found orb fst snd].

(** Settles the comparisons whose outcome follows from the hypotheses. *)
Ltac settle_ltb :=
  repeat match goal with
         | |- context [N.ltb ?a ?b] =>
             first [ rewrite (proj2 (N.ltb_lt a b)) by lia
                   | rewrite (proj2 (N.ltb_ge a b)) by lia ]
         end.

(** * Properties *)

(** ** Checks of the embedding *)

Example sha256_empty :
  compute_hash [] =
  lit "e3b0c44298fc1c149afbf4c8996fb92427ae41e4649b934ca495991b7852b855".
Proof. vm_compute. reflexivity. Qed.

Example sha256_abc :
  compute_hash (ascii_bytes "abc") =
  lit "ba7816bf8f01cfea414140de5dae2223b00361a396177a9cb410ff61f20015ad".
Proof. vm_compute. reflexivity. Qed.

Example sha256_two_blocks :
  compute_hash
    (ascii_bytes "abcdbcdecdefdefgefghfghighijhijkijkljklmklmnlmnomnopnopq") =
  lit "248d6a61d20638b8e5c026930c3e6039a33ce45964ff2167f6ecedd419db06c1".
Proof. vm_compute. reflexivity. Qed.

Example decode_drops_invalid :
  decode_utf8_ignore [x48; xff; x69; xc3; xa9; xe2; x82] = [72; 105; 233].
Proof. reflexivity. Qed.

Example dumps_state :
  Json.dumps [(lit "last_hash", PStr (lit "ab12")); (lit "last_keyword_found", PBool false)]
  = lit "{" ++ [10] ++ lit "  " ++ [34] ++ lit "last_hash" ++ [34] ++ lit ": "
    ++ [34] ++ lit "ab12" ++ [34] ++ lit "," ++ [10]
    ++ lit "  " ++ [34] ++ lit "last_keyword_found" ++ [34] ++ lit ": false"
    ++ [10] ++ lit "}".
Proof. reflexivity. Qed.

Example sharp_s_cases :
  upper [223] = lit "SS" /\ capitalize [223] = lit "Ss" /\
  lower (lit "SS") = lit "ss" /\ lower [223] = [223].
Proof. repeat split. Qed.

Example message_format :
  build_message (lit "http://h") (lit "Page content changed") []
  = lit "Hostel site update" ++ [10] ++ lit "URL: http://h" ++ [10]
    ++ lit "Reason: Page content changed".
Proof. reflexivity. Qed.

Example fallback_observation :
  observe {| js_page := Raise OtherException;
             http_page := Ok (ascii_bytes "Rooms" ++ [xff]);
             smtp_ok := true; sleep_ok := true |}
  = Ok {| text_lower := lit "rooms";
          content := ascii_bytes "Rooms" ++ [xff];
          page_hash := compute_hash (ascii_bytes "Rooms" ++ [xff]) |}.
Proof. vm_compute. reflexivity. Qed.

Example content_change_detected :
  snd (cycle (Scenario.cfg false "" false)
         (Scenario.rendered "Rooms: SOLD OUT" true)
         (boot (Scenario.stored "Rooms available" false))
         (Scenario.world_after "Rooms available" false))
  = Ok {| content_changed := true; keyword_found := false;
          reasons := [lit "Page content changed"];
          samples := [lit "Content preview: rooms: sold out"] |}.
Proof. vm_compute. reflexivity. Qed.

Example keyword_detected :
  snd (cycle (Scenario.cfg true "vacancy" false)
         (Scenario.rendered "New VACANCY posted" true)
         (boot (Scenario.stored "New VACANCY posted" false))
         (Scenario.world_after "New VACANCY posted" false))
  = Ok {| content_changed := false; keyword_found := true;
          reasons := [lit "Keyword 'vacancy' found on page"];
          samples := [lit "Keyword context: new vacancy posted"] |}.
Proof. vm_compute. reflexivity. Qed.

(** ** Strings and dictionaries *)

Lemma str_eqb_refl (a : str) : str_eqb a a = true.
Proof.
  induction a as [|x a IH]; [reflexivity|].
  cbn. now rewrite N.eqb_refl, IH.
Qed.

Lemma str_eqb_eq (a b : str) : str_eqb a b = true <-> a = b.
Proof.
  split; [|intros ->; apply str_eqb_refl].
  revert b. induction a as [|x a IH]; intros [|y b]; cbn; try discriminate.
  - reflexivity.
  - rewrite andb_true_iff, N.eqb_eq. intros [-> H]. f_equal. now apply IH.
Qed.

Lemma str_eqb_neq (a b : str) : str_eqb a b = false <-> a <> b.
Proof.
  rewrite <- str_eqb_eq. destruct (str_eqb a b); split; congruence.
Qed.

Lemma startswith_app (p s : str) : startswith p (p ++ s) = true.
Proof.
  induction p as [|a p IH]; [reflexivity|].
  cbn. now rewrite N.eqb_refl, IH.
Qed.

Lemma startswith_split (p s : str) :
  startswith p s = true -> exists post, s = p ++ post.
Proof.
  revert s. induction p as [|a p IH]; intros s H.
  - now exists s.
  - destruct s as [|b s]; [discriminate|]. cbn in H.
    apply andb_true_iff in H as [Hab H]. apply N.eqb_eq in Hab as ->.
    destruct (IH _ H) as [post ->]. now exists post.
Qed.

(** [needle in hay] holds exactly when [hay] splits around [needle]. *)
Lemma contains_spec (needle hay : str) :
  contains needle hay = true <-> exists pre post, hay = pre ++ needle ++ post.
Proof.
  split.
  - induction hay as [|c hay IH]; cbn; rewrite orb_true_iff.
    + intros [H|H]; [|discriminate].
      apply startswith_split in H as [post ->]. now exists [], post.
    + intros [H|H].
      * apply startswith_split in H as [post ->]. now exists [], post.
      * destruct (IH H) as (pre & post & ->). now exists (c :: pre), post.
  - intros (pre & post & ->).
    induction pre as [|c pre IH]; cbn [app].
    + destruct (needle ++ post) eqn:E; cbn; rewrite <- ?E;
        now rewrite startswith_app.
    + cbn. now rewrite IH, orb_true_r.
Qed.

Lemma contains_nil (hay : str) : contains [] hay = true.
Proof. destruct hay; reflexivity. Qed.

(** A text that holds a padded needle holds the needle. *)
Lemma contains_inner (a needle b hay : str) :
  contains (a ++ needle ++ b) hay = true -> contains needle hay = true.
Proof.
  rewrite !contains_spec. intros (pre & post & ->).
  exists (pre ++ a), (b ++ post). now rewrite <- !app_assoc.
Qed.

Lemma lower_app (a b : str) : lower (a ++ b) = lower a ++ lower b.
Proof. apply map_app. Qed.

Lemma in_range_spec (lo hi c : N) :
  in_range lo hi c = true <-> lo <= c <= hi.
Proof. unfold in_range. rewrite andb_true_iff, !N.leb_le. tauto. Qed.

Lemma in_range_false (lo hi c : N) :
  in_range lo hi c = false <-> ~ (lo <= c <= hi).
Proof.
  rewrite <- in_range_spec. destruct (in_range lo hi c); split; congruence.
Qed.

(** A code point outside the upper-case ranges is its own lower case. *)
Lemma lower_cp_fixed (c : N) :
  ~ (65 <= c <= 90) -> ~ (192 <= c <= 222 /\ c <> 215) -> c <> 376 ->
  c <> 924 -> lower_cp c = c.
Proof.
  intros H1 H2 H3 H4. unfold lower_cp.
  apply in_range_false in H1. rewrite H1.
  destruct (in_range 192 222 c && negb (c =? 215)) eqn:E.
  - exfalso. apply andb_true_iff in E as [Er En]. apply in_range_spec in Er.
    apply negb_true_iff, N.eqb_neq in En. tauto.
  - apply N.eqb_neq in H3, H4. now rewrite H3, H4.
Qed.

Lemma lower_cp_cases (c : N) :
  (65 <= c <= 90 /\ lower_cp c = c + 32) \/
  (192 <= c <= 222 /\ c <> 215 /\ lower_cp c = c + 32) \/
  (c = 376 /\ lower_cp c = 255) \/
  (c = 924 /\ lower_cp c = 956) \/
  (~ (65 <= c <= 90) /\ ~ (192 <= c <= 222 /\ c <> 215) /\ c <> 376 /\
   c <> 924 /\ lower_cp c = c).
Proof.
  unfold lower_cp.
  destruct (in_range 65 90 c) eqn:E1.
  { apply in_range_spec in E1. now left. }
  apply in_range_false in E1.
  destruct (in_range 192 222 c && negb (c =? 215)) eqn:E2.
  { apply andb_true_iff in E2 as [Er En]. apply in_range_spec in Er.
    apply negb_true_iff, N.eqb_neq in En. right; left. tauto. }
  assert (~ (192 <= c <= 222 /\ c <> 215)) as H2.
  { intros [Hr Hn]. apply in_range_spec in Hr. apply N.eqb_neq in Hn.
    rewrite Hr, Hn in E2. discriminate. }
  destruct (N.eqb_spec c 376) as [->|H3]; [right; right; left; now split|].
  destruct (N.eqb_spec c 924) as [->|H4];
    [right; right; right; left; now split|].
  right; right; right; right. tauto.
Qed.

Lemma lower_cp_idem (c : N) : lower_cp (lower_cp c) = lower_cp c.
Proof.
  destruct (lower_cp_cases c)
    as [[H ->]|[(H & Hn & ->)|[[-> ->]|[[-> ->]|(H1 & H2 & H3 & H4 & ->)]]]];
    try reflexivity; apply lower_cp_fixed; lia.
Qed.

Lemma lower_idem (s : str) : lower (lower s) = lower s.
Proof.
  unfold lower. rewrite map_map. apply map_ext. intros c. apply lower_cp_idem.
Qed.

Lemma dict_get_set_eq (d : dict) (k : str) (v def : pyval) :
  dict_get (dict_set d k v) k def = v.
Proof.
  induction d as [|[k' v'] d IH]; cbn.
  - now rewrite str_eqb_refl.
  - destruct (str_eqb k' k) eqn:E; cbn; rewrite E; [reflexivity | apply IH].
Qed.

Lemma dict_get_set_ne (d : dict) (k k' : str) (v def : pyval) :
  k <> k' -> dict_get (dict_set d k v) k' def = dict_get d k' def.
Proof.
  intros Hne. induction d as [|[k0 v0] d IH]; cbn.
  - apply str_eqb_neq in Hne. now rewrite Hne.
  - destruct (str_eqb k0 k) eqn:E; cbn.
    + apply str_eqb_eq in E as ->. apply str_eqb_neq in Hne. now rewrite Hne.
    + now rewrite IH.
Qed.

(** Storing again what a key already holds changes nothing. *)
Lemma dict_set_same (d : dict) (k : str) (v : pyval) :
  dict_set (dict_set d k v) k v = dict_set d k v.
Proof.
  induction d as [|[k' v'] d IH]; cbn.
  - now rewrite str_eqb_refl.
  - destruct (str_eqb k' k) eqn:E; cbn; rewrite E; [reflexivity|].
    now rewrite IH.
Qed.

Lemma dict_set_comm (d : dict) (k k' : str) (v v' : pyval) :
  k <> k' ->
  dict_set (dict_set (dict_set d k v) k' v') k v = dict_set (dict_set d k v) k' v'.
Proof.
  intros Hne. induction d as [|[k0 v0] d IH]; cbn.
  - pose proof Hne as Hne'. apply str_eqb_neq in Hne'. rewrite Hne'. cbn.
    now rewrite str_eqb_refl.
  - destruct (str_eqb k0 k) eqn:E; cbn.
    + pose proof E as E'. apply str_eqb_eq in E' as ->.
      pose proof Hne as Hne'. apply str_eqb_neq in Hne'. rewrite Hne'. cbn.
      now rewrite str_eqb_refl.
    + destruct (str_eqb k0 k') eqn:E'; cbn; rewrite E.
      * now rewrite dict_set_same.
      * now rewrite IH.
Qed.

Lemma keys_differ : k_last_hash <> k_last_keyword_found.
Proof. discriminate. Qed.

(** ** The detection cycle *)





(** The lower-cased keyword itself is the first variation tried. *)
Lemma found_of_contains (kw text : str) :
  contains (lower kw) text = true -> found kw text = true.
Proof. intros H. unfold found. cbn. now rewrite H. Qed.

Lemma files_save_state (path : string) (st : dict) (w : World) :
  files (save_state path st w) !! path = Some (Json.dumps st).
Proof. cbn. apply lookup_insert_eq. Qed.

(** The cycle after a successful fetch, step by step. *)
Lemma cycle_observed (cfg : Config) (env : Env) (m : Mem) (w : World)
  (o : Observation) :
  observe env = Ok o ->
  cycle cfg env m w =
  (let '(m1, w1, d1) := check_content cfg o m w in
   let '(m2, d2) := check_keyword cfg o m1 d1 in
   let '(m3, w3) := notify cfg env m2 w1 d2 in
   (m3, w3, Ok d2)).
Proof. intros H. unfold cycle. now rewrite H. Qed.

Lemma join_cons_nonempty (sep p : str) (rest : list str) :
  p <> [] -> join sep (p :: rest) <> [].
Proof.
  intros Hp. destruct rest as [|q rest]; cbn [join]; [exact Hp|].
  destruct p; [congruence | discriminate].
Qed.




Lemma keyword_lower (cfg : Config) : lower (keyword cfg) = keyword cfg.
Proof. apply lower_idem. Qed.




(** The first notification of a fresh single run, as it is sent. *)
Example first_run_mail :
  trace (snd (fst (loop (Scenario.cfg true "Vacancy" true)
                     [Scenario.rendered "New VACANCY posted" false]
                     Scenario.fresh_mem Scenario.fresh_world)))
  = [ Saved "last_state.json"
        (Json.dumps [(lit "last_hash",
                      PStr (compute_hash (ascii_bytes "New VACANCY posted")))]);
      Mailed (lit "Hostel site update detected")
        (lit "Hostel site update" ++ [10]
         ++ lit "URL: https://hostel.example/rooms" ++ [10]
         ++ lit "Reason: Keyword 'vacancy' found on page" ++ [10]
         ++ lit "Sample: Keyword context: new vacancy posted") false;
      Saved "last_state.json"
        (Json.dumps [(lit "last_hash",
                      PStr (compute_hash (ascii_bytes "New VACANCY posted")));
                     (lit "last_keyword_found", PBool true)]) ].
Proof. vm_compute. reflexivity. Qed.





(** ** The run loop *)

Lemma observe_unreachable (env : Env) (e1 e2 : exn) :
  js_page env = Raise e1 -> http_page env = Raise e2 ->
  observe env = Raise e2.
Proof.
  intros Hjs Hhttp. unfold observe, fetch_fallback. now rewrite Hjs, Hhttp.
Qed.

(** C7, as stated, fails in continuous mode.  The sleep that follows the
    failed cycle is outside the [try], and [time.sleep] raises for a negative
    [check_interval_seconds]: with an interval of -5 the loop does not go on
    to the next cycle, whose page was there to be fetched; the process ends
    with code 1, memory and files untouched.  With 300 seconds it goes on. *)
Lemma negative_interval_stops_loop :
  single_run (Scenario.cfg_every (-5)) = false /\
  observe Scenario.unreachable = Raise RequestException /\
  loop (Scenario.cfg_every (-5))
    [Scenario.unreachable; Scenario.rendered "Rooms available" true]
    Scenario.fresh_mem Scenario.fresh_world
  = (Scenario.fresh_mem, Scenario.fresh_world, Exited 1) /\
  main (Scenario.cfg_every (-5))
    [Scenario.unreachable; Scenario.rendered "Rooms available" true]
    Scenario.fresh_world
  = (Some Scenario.fresh_mem, Scenario.fresh_world, Exited 1) /\
  loop (Scenario.cfg_every 300)
    [Scenario.unreachable; Scenario.rendered "Rooms available" true]
    Scenario.fresh_mem Scenario.fresh_world
  = loop (Scenario.cfg_every 300) [Scenario.rendered "Rooms available" true]
      Scenario.fresh_mem Scenario.fresh_world.
Proof. repeat split. Qed.

Lemma sleep_accepts_spec (interval : Z) :
  sleep_accepts interval = true <-> (0 <= interval <= 9223372036)%Z.
Proof.
  unfold sleep_accepts. rewrite andb_true_iff, !Z.leb_le.
  change (10 ^ 9)%Z with 1000000000%Z.
  change (2 ^ 63 - 1)%Z with 9223372036854775807%Z. lia.
Qed.

(** C7, amended.  When both the rendered fetch and the plain request
    raise, the cycle changes neither the memory nor the world (no file
    written, no mail call).  A single run then ends with exit code 0.  The
    continuous loop goes on with the next cycle when [time.sleep] returns,
    which takes an interval from 0 to 9223372036 seconds; for a negative or
    a larger interval, or when the system's sleep call fails, the process
    ends there with code 1, memory and world still untouched. *)
Theorem fetch_error_atomicity (cfg : Config) (env : Env) (rest : list Env)
  (m : Mem) (w : World) (e1 e2 : exn) :
  js_page env = Raise e1 ->
  http_page env = Raise e2 ->
  cycle cfg env m w = (m, w, Raise e2) /\
  (single_run cfg = true -> loop cfg (env :: rest) m w = (m, w, Exited 0)) /\
  (single_run cfg = false ->
   (0 <= check_interval_seconds cfg <= 9223372036)%Z ->
   sleep_ok env = true ->
   loop cfg (env :: rest) m w = loop cfg rest m w) /\
  (single_run cfg = false ->
   (check_interval_seconds cfg < 0)%Z \/
   (9223372036 < check_interval_seconds cfg)%Z \/
   sleep_ok env = false ->
   loop cfg (env :: rest) m w = (m, w, Exited 1)) /\
  (forall st, load_state (state_file cfg) w = Ok st -> single_run cfg = true ->
     main cfg (env :: rest) w = (Some (boot st), w, Exited 0)).
Proof.
  intros Hjs Hhttp.
  assert (forall m0 w0, cycle cfg env m0 w0 = (m0, w0, Raise e2)) as Hcycle.
  { intros m0 w0. unfold cycle.
    now rewrite (observe_unreachable _ _ _ Hjs Hhttp). }
  split; [apply Hcycle|]. repeat split.
  - intros Hsingle. cbn [loop]. now rewrite Hcycle, Hsingle.
  - intros Hcont Hlen Hok. cbn [loop]. rewrite Hcycle, Hcont. unfold sleep.
    now rewrite (proj2 (sleep_accepts_spec _) Hlen), Hok.
  - intros Hcont Hbad. cbn [loop]. rewrite Hcycle, Hcont. unfold sleep.
    destruct (sleep_accepts (check_interval_seconds cfg)) eqn:Hacc;
      [|reflexivity].
    apply sleep_accepts_spec in Hacc.
    destruct Hbad as [Hneg|[Hbig|Hfail]]; [lia | lia | now rewrite Hfail].
  - intros st Hload Hsingle. unfold main. rewrite Hload. cbn [loop].
    now rewrite Hcycle, Hsingle.
Qed.

Lemma fetch_error_atomicity_witness :
  (js_page Scenario.unreachable = Raise OtherException /\
   http_page Scenario.unreachable = Raise RequestException /\
   cycle (Scenario.cfg true "vacancy" true) Scenario.unreachable
     (boot (Scenario.stored "Rooms available" false))
     (Scenario.world_after "Rooms available" false)
   = (boot (Scenario.stored "Rooms available" false),
      Scenario.world_after "Rooms available" false, Raise RequestException) /\
   loop (Scenario.cfg true "vacancy" true)
     [Scenario.unreachable; Scenario.rendered "Rooms: SOLD OUT" true]
     (boot (Scenario.stored "Rooms available" false))
     (Scenario.world_after "Rooms available" false)
   = (boot (Scenario.stored "Rooms available" false),
      Scenario.world_after "Rooms available" false, Exited 0) /\
   main (Scenario.cfg true "vacancy" true)
     [Scenario.unreachable; Scenario.rendered "Rooms: SOLD OUT" true]
     (Scenario.world_after "Rooms available" false)
   = (Some (boot (Scenario.stored "Rooms available" false)),
      Scenario.world_after "Rooms available" false, Exited 0)) /\
  (js_page Scenario.unreachable = Raise OtherException /\
   http_page Scenario.unreachable = Raise RequestException /\
   single_run (Scenario.cfg_every 300) = false /\
   (0 <= check_interval_seconds (Scenario.cfg_every 300) <= 9223372036)%Z /\
   sleep_ok Scenario.unreachable = true /\
   loop (Scenario.cfg_every 300)
     [Scenario.unreachable; Scenario.rendered "Rooms: SOLD OUT" true]
     (boot (Scenario.stored "Rooms available" false))
     (Scenario.world_after "Rooms available" false)
   = loop (Scenario.cfg_every 300)
       [Scenario.rendered "Rooms: SOLD OUT" true]
       (boot (Scenario.stored "Rooms available" false))
       (Scenario.world_after "Rooms available" false)) /\
  (single_run (Scenario.cfg_every (-5)) = false /\
   (check_interval_seconds (Scenario.cfg_every (-5)) < 0)%Z /\
   loop (Scenario.cfg_every (-5))
     [Scenario.unreachable; Scenario.rendered "Rooms: SOLD OUT" true]
     (boot (Scenario.stored "Rooms available" false))
     (Scenario.world_after "Rooms available" false)
   = (boot (Scenario.stored "Rooms available" false),
      Scenario.world_after "Rooms available" false, Exited 1)).
Proof.
  assert (load_state (state_file (Scenario.cfg true "vacancy" true))
            (Scenario.world_after "Rooms available" false)
          = Ok (Scenario.stored "Rooms available" false)) as Hload
    by (vm_compute; reflexivity).
  assert (0 <= check_interval_seconds (Scenario.cfg_every 300)
          <= 9223372036)%Z as Hlen by (cbn; lia).
  assert (check_interval_seconds (Scenario.cfg_every (-5)) < 0)%Z as Hneg
    by (cbn; lia).
  split; [|split].
  - destruct (fetch_error_atomicity (Scenario.cfg true "vacancy" true)
                Scenario.unreachable
                [Scenario.rendered "Rooms: SOLD OUT" true]
                (boot (Scenario.stored "Rooms available" false))
                (Scenario.world_after "Rooms available" false)
                OtherException RequestException eq_refl eq_refl)
      as (Hcycle & Hsingle & _ & _ & Hmain).
    split; [reflexivity|]. split; [reflexivity|]. split; [exact Hcycle|].
    split; [exact (Hsingle eq_refl) | exact (Hmain _ Hload eq_refl)].
  - destruct (fetch_error_atomicity (Scenario.cfg_every 300)
                Scenario.unreachable
                [Scenario.rendered "Rooms: SOLD OUT" true]
                (boot (Scenario.stored "Rooms available" false))
                (Scenario.world_after "Rooms available" false)
                OtherException RequestException eq_refl eq_refl)
      as (_ & _ & Hcont & _ & _).
    split; [reflexivity|]. split; [reflexivity|]. split; [reflexivity|].
    split; [exact Hlen|]. split; [reflexivity|].
    exact (Hcont eq_refl Hlen eq_refl).
  - destruct (fetch_error_atomicity (Scenario.cfg_every (-5))
                Scenario.unreachable
                [Scenario.rendered "Rooms: SOLD OUT" true]
                (boot (Scenario.stored "Rooms available" false))
                (Scenario.world_after "Rooms available" false)
                OtherException RequestException eq_refl eq_refl)
      as (_ & _ & _ & Hbad & _).
    split; [reflexivity|]. split; [exact Hneg|].
    exact (Hbad eq_refl (or_introl Hneg)).
Defined.

(** ** Two cycles on the same content *)

Lemma py_eqb_eq (a b : pyval) : py_eqb a b = true -> a = b.
Proof.
  destruct a as [|x|x], b as [|y|y]; cbn; try discriminate; try reflexivity.
  - intros H. apply Bool.eqb_prop in H. now subst.
  - intros H. apply str_eqb_eq in H. now subst.
Qed.

Lemma py_eqb_refl (a : pyval) : py_eqb a a = true.
Proof.
  destruct a as [|x|x]; cbn; [reflexivity | apply Bool.eqb_reflx |
                              apply str_eqb_refl].
Qed.

Lemma cycle_settles (cfg : Config) (env : Env) (m : Mem) (w : World)
  (o : Observation) :
  observe env = Ok o ->
  exists m1 w1 d1,
    cycle cfg env m w = (m1, w1, Ok d1) /\ settled cfg o m1 w1.
Proof.
  intros Hobs. rewrite (cycle_observed _ _ _ _ _ Hobs).
  unfold check_content.
  destruct (is_none (last_hash m)) eqn:Hn;
    [| destruct (negb (py_eqb (PStr (page_hash o)) (last_hash m))) eqn:Hc];
    unfold check_keyword;
    destruct (use_keyword cfg) eqn:Hkw;
    try destruct (first_variation _ _) as [used|] eqn:Hv;
    unfold notify, changed; cycle_fields; cbn [send_email];
    do 3 eexists; (split; [reflexivity|]);
    unfold settled, found; cycle_fields; try rewrite Hv;
    (split;
     [ first [ reflexivity
             | apply negb_false_iff, py_eqb_eq in Hc; now rewrite <- Hc ] |]);
    (split;
     [ intros Hk; first [congruence | reflexivity]
     | intros Hk Hf;
       first [ congruence
             | split; [eexists; reflexivity | apply files_save_state] ] ]).
Qed.

Lemma settled_cycle (cfg : Config) (env : Env) (m : Mem) (w : World)
  (o : Observation) :
  settled cfg o m w ->
  observe env = Ok o ->
  exists w2 d2,
    cycle cfg env m w = (m, w2, Ok d2) /\
    files w2 = files w /\
    content_changed d2 = false /\
    changed d2 = use_keyword cfg && found (keyword cfg) (text_lower o).
Proof.
  intros (Hh & Hk & Hs) Hobs. rewrite (cycle_observed _ _ _ _ _ Hobs).
  destruct m as [st lh lk]. cbn [last_hash last_keyword_found state] in *.
  subst lh. unfold check_content. cbn [last_hash is_none].
  cbn [py_eqb]. rewrite str_eqb_refl. cbn [negb].
  unfold check_keyword, found in *.
  destruct (use_keyword cfg) eqn:Hkw; cbn [andb].
  - specialize (Hk eq_refl). specialize (Hs eq_refl).
    destruct (first_variation _ _) as [used|] eqn:Hv.
    + subst lk. destruct (Hs eq_refl) as [[d0 Hst] Hfile].
      cbn [last_hash last_keyword_found state] in *.
      unfold notify, changed. cycle_fields. cbn [send_email].
      assert (dict_set (dict_set st k_last_hash (PStr (page_hash o)))
                k_last_keyword_found (PBool true) = st) as Hsame.
      { rewrite Hst at 1.
        rewrite (dict_set_comm d0 _ _ _ _ keys_differ).
        rewrite dict_set_same. now rewrite <- Hst. }
      rewrite Hsame. do 2 eexists. split; [reflexivity|].
      cycle_fields. repeat split.
      cbn [save_state files]. now apply insert_id.
    + subst lk. unfold notify, changed. cycle_fields.
      do 2 eexists. split; [reflexivity|]. now cycle_fields.
  - unfold notify, changed. cycle_fields.
    do 2 eexists. split; [reflexivity|]. now cycle_fields.
Qed.

(** C1, as stated, fails: with keyword matching enabled and the keyword on
    the page, the second of two cycles on the same page notifies again. *)
Lemma second_cycle_notifies_again :
  observe (Scenario.rendered "New VACANCY posted" true)
  = Ok (Scenario.seen "New VACANCY posted") /\
  exists m2 w2 d2,
    Scenario.twice (Scenario.cfg true "vacancy" false)
      (Scenario.rendered "New VACANCY posted" true) = (m2, w2, Ok d2) /\
    content_changed d2 = false /\
    changed d2 = true.
Proof.
  split; [vm_compute; reflexivity|].
  do 3 eexists. split; [vm_compute; reflexivity|]. split; reflexivity.
Qed.

(** C1, amended.  If a cycle completes on some content and the next cycle
    observes the same content, the second cycle leaves the memory and the
    files as they are and reports no content change; it notifies exactly
    when keyword matching is enabled and the keyword is found in that
    content. *)
Theorem no_change_idempotence (cfg : Config) (env1 env2 : Env) (m : Mem)
  (w : World) (o : Observation) :
  observe env1 = Ok o ->
  observe env2 = Ok o ->
  exists m1 w1 d1 w2 d2,
    cycle cfg env1 m w = (m1, w1, Ok d1) /\
    cycle cfg env2 m1 w1 = (m1, w2, Ok d2) /\
    files w2 = files w1 /\
    content_changed d2 = false /\
    changed d2 = use_keyword cfg && found (keyword cfg) (text_lower o).
Proof.
  intros Hobs1 Hobs2.
  destruct (cycle_settles cfg env1 m w o Hobs1) as (m1 & w1 & d1 & Hc1 & Hs).
  destruct (settled_cycle cfg env2 m1 w1 o Hs Hobs2)
    as (w2 & d2 & Hc2 & Hfiles & Hcc & Hch).
  exists m1, w1, d1, w2, d2. tauto.
Qed.

Lemma no_change_idempotence_witness :
  observe (Scenario.rendered "Rooms available" true)
  = Ok (Scenario.seen "Rooms available") /\
  observe (Scenario.rendered "Rooms available" false)
  = Ok (Scenario.seen "Rooms available") /\
  exists m1 w1 d1 w2 d2,
    cycle (Scenario.cfg true "vacancy" false)
      (Scenario.rendered "Rooms available" true)
      Scenario.fresh_mem Scenario.fresh_world = (m1, w1, Ok d1) /\
    cycle (Scenario.cfg true "vacancy" false)
      (Scenario.rendered "Rooms available" false) m1 w1 = (m1, w2, Ok d2) /\
    files w2 = files w1 /\
    content_changed d2 = false /\
    changed d2 =
      use_keyword (Scenario.cfg true "vacancy" false)
      && found (keyword (Scenario.cfg true "vacancy" false))
           (text_lower (Scenario.seen "Rooms available")).
Proof.
  assert (observe (Scenario.rendered "Rooms available" true)
          = Ok (Scenario.seen "Rooms available")) as Hobs1
    by (vm_compute; reflexivity).
  assert (observe (Scenario.rendered "Rooms available" false)
          = Ok (Scenario.seen "Rooms available")) as Hobs2
    by (vm_compute; reflexivity).
  split; [exact Hobs1|]. split; [exact Hobs2|].
  exact (no_change_idempotence (Scenario.cfg true "vacancy" false)
           (Scenario.rendered "Rooms available" true)
           (Scenario.rendered "Rooms available" false)
           Scenario.fresh_mem Scenario.fresh_world
           (Scenario.seen "Rooms available") Hobs1 Hobs2).
Defined.

(** ** What a cycle persists *)




(** ** The keyword search *)

(** On a code point up to U+00FF other than the micro sign and the sharp
    s, upper-casing (or title-casing) what was lower-cased and lower-casing
    again gives the lower-case code point back.  Checked on the 256 code
    points. *)
Lemma case_roundtrip (c : N) :
  c <= 255 -> c <> 181 -> c <> 223 ->
  lower (upper_cp (lower_cp c)) = [lower_cp c] /\
  lower (title_cp (lower_cp c)) = [lower_cp c].
Proof.
  intros Hc H1 H2.
  assert (forallb
            (fun n =>
               (N.of_nat n =? 181) || (N.of_nat n =? 223)
               || (str_eqb (lower (upper_cp (lower_cp (N.of_nat n))))
                     [lower_cp (N.of_nat n)]
                   && str_eqb (lower (title_cp (lower_cp (N.of_nat n))))
                        [lower_cp (N.of_nat n)]))
            (seq 0 256) = true) as Hall by (vm_compute; reflexivity).
  rewrite forallb_forall in Hall.
  specialize (Hall (N.to_nat c)). rewrite N2Nat.id in Hall.
  apply N.eqb_neq in H1, H2. rewrite H1, H2 in Hall. cbn [orb] in Hall.
  assert (In (N.to_nat c) (seq 0 256)) as Hin by (apply in_seq; lia).
  apply Hall, andb_true_iff in Hin as [Hu Ht].
  now apply str_eqb_eq in Hu, Ht.
Qed.

Lemma case_reversible_cons (c : N) (s : str) :
  case_reversible (c :: s) = true ->
  (c <= 255 /\ c <> 181 /\ c <> 223) /\ case_reversible s = true.
Proof.
  unfold case_reversible. cbn [forallb].
  rewrite !andb_true_iff, !negb_true_iff, N.leb_le, !N.eqb_neq. tauto.
Qed.

Lemma reversible_upper_lower (s : str) :
  case_reversible s = true -> lower (upper (lower s)) = lower s.
Proof.
  induction s as [|c s IH]; [reflexivity|].
  intros H. apply case_reversible_cons in H as [(Hc & H1 & H2) Hs].
  cbn [lower upper map flat_map]. fold (lower s). fold (upper (lower s)).
  rewrite lower_app, (IH Hs).
  now rewrite (proj1 (case_roundtrip c Hc H1 H2)).
Qed.

Lemma reversible_capitalize_lower (s : str) :
  case_reversible s = true -> lower (capitalize (lower s)) = lower s.
Proof.
  destruct s as [|c s]; [reflexivity|].
  intros H. apply case_reversible_cons in H as [(Hc & H1 & H2) _].
  cbn [lower map capitalize]. fold (lower s).
  rewrite lower_app, !lower_idem.
  now rewrite (proj2 (case_roundtrip c Hc H1 H2)).
Qed.

(** C3, as stated, fails: for the keyword U+00DF (sharp s), whose upper
    case is "SS", the loop finds the keyword in the text "ss" through its
    second variation, while the lower-cased keyword does not occur in that
    text.  Reading "case-insensitive" as a comparison of case-folded strings
    does not save the claim: the keyword "ss" matches the text U+00DF that
    way, and the loop does not find it. *)
Lemma variations_not_a_single_search :
  (upper (keyword (Scenario.cfg_str true [223] false)) = lit "SS" /\
   found (keyword (Scenario.cfg_str true [223] false)) (lower (lit "ss"))
   = true /\
   ci_search (config_keyword (Scenario.cfg_str true [223] false)) (lit "ss")
   = false) /\
  (found (keyword (Scenario.cfg true "ss" false)) (lower [223]) = false /\
   cf_search (config_keyword (Scenario.cfg true "ss" false)) [223] = true).
Proof. repeat split. Qed.

(** C3, amended.  For a keyword made of code points up to U+00FF other
    than the micro sign (U+00B5) and the sharp s (U+00DF), and for every
    lower-cased page text that a cycle observed, the loop over the seven
    variations finds the keyword exactly when the lower-cased keyword
    occurs in that text; for a page text in the range U+0000..U+00FF this
    is the single search of the lower-cased keyword in the lower-cased
    text. *)
Theorem variations_degenerate (cfg : Config) (o : Observation) :
  case_reversible (config_keyword cfg) = true ->
  found (keyword cfg) (text_lower o)
  = contains (keyword cfg) (text_lower o) /\
  (forall text, latin1 text = true -> text_lower o = lower text ->
     found (keyword cfg) (text_lower o)
     = ci_search (config_keyword cfg) text).
Proof.
  intros Hk.
  assert (forall t, found (keyword cfg) t = contains (keyword cfg) t) as Hfound.
  { intros t.
    pose proof (reversible_upper_lower _ Hk) as Hup.
    pose proof (reversible_capitalize_lower _ Hk) as Hcap.
    fold (keyword cfg) in Hup, Hcap.
    unfold found, search_variations. cbn [first_variation].
    rewrite keyword_lower, Hup, Hcap, !lower_app, keyword_lower.
    destruct (contains (keyword cfg) t) eqn:E; [reflexivity|].
    repeat match goal with
           | |- context [contains (?a ++ keyword cfg ++ ?b) ?t] =>
               let E' := fresh "E" in
               destruct (contains (a ++ keyword cfg ++ b) t) eqn:E';
               [apply contains_inner in E'; congruence|]
           end.
    reflexivity. }
  split; [apply Hfound|].
  intros text _ Ht. rewrite Hfound, Ht. reflexivity.
Qed.

Lemma variations_degenerate_witness :
  case_reversible (config_keyword (Scenario.cfg true "Vacancy" false)) = true /\
  found (keyword (Scenario.cfg true "Vacancy" false))
    (text_lower (Scenario.seen "New VACANCY posted"))
  = contains (keyword (Scenario.cfg true "Vacancy" false))
      (text_lower (Scenario.seen "New VACANCY posted")) /\
  latin1 (lit "New VACANCY posted") = true /\
  found (keyword (Scenario.cfg true "Vacancy" false))
    (text_lower (Scenario.seen "New VACANCY posted"))
  = ci_search (config_keyword (Scenario.cfg true "Vacancy" false))
      (lit "New VACANCY posted").
Proof.
  destruct (variations_degenerate (Scenario.cfg true "Vacancy" false)
              (Scenario.seen "New VACANCY posted") eq_refl) as [Hfound Hci].
  split; [reflexivity|]. split; [exact Hfound|]. split; [reflexivity|].
  exact (Hci (lit "New VACANCY posted") eq_refl eq_refl).
Defined.

(** ** The state file: writing, then reading *)

Lemma plain_cp_spec (c : N) :
  plain_cp c = true <-> 32 <= c <= 126 /\ c <> 34 /\ c <> 92.
Proof.
  unfold plain_cp.
  rewrite !andb_true_iff, !negb_true_iff, !N.eqb_neq, in_range_spec. tauto.
Qed.

Lemma escape_plain_cp (c : N) : plain_cp c = true -> Json.escape_cp c = [c].
Proof.
  intros H. apply plain_cp_spec in H as (Hr & H34 & H92).
  unfold Json.escape_cp.
  repeat match goal with
         | |- context [N.eqb c ?k] =>
             destruct (N.eqb_spec c k); [lia|]
         end.
  replace (in_range 32 126 c) with true by (symmetry; apply in_range_spec; lia).
  reflexivity.
Qed.

Lemma escape_plain (s : str) : plain s = true -> flat_map Json.escape_cp s = s.
Proof.
  induction s as [|c s IH]; [reflexivity|].
  cbn [plain forallb flat_map]. intros H. apply andb_true_iff in H as [Hc Hs].
  now rewrite (escape_plain_cp c Hc), (IH Hs).
Qed.

Lemma dump_string_plain (s : str) :
  plain s = true -> Json.dump_string s = 34 :: s ++ [34].
Proof. intros H. unfold Json.dump_string. now rewrite (escape_plain s H). Qed.

(** Reading a plain string up to its closing quote. *)
Lemma scan_string_plain (s rest : str) :
  plain s = true -> Json.scan_string (s ++ 34 :: rest) = Ok (s, rest).
Proof.
  induction s as [|c s IH]; [reflexivity|].
  cbn [plain forallb]. intros H. apply andb_true_iff in H as [Hc Hs].
  apply plain_cp_spec in Hc as (Hr & H34 & H92).
  cbn [app Json.scan_string].
  destruct (N.eqb_spec c 34); [lia|].
  destruct (N.eqb_spec c 92); [lia|].
  destruct (N.ltb_spec c 32); [lia|].
  now rewrite (IH Hs).
Qed.

Lemma skip_ws_value (v : pyval) (rest : str) :
  Json.skip_ws (Json.dump_value v ++ rest) = Json.dump_value v ++ rest.
Proof. destruct v as [|[|]|s]; reflexivity. Qed.

Lemma scan_once_value (v : pyval) (rest : str) :
  plain_value v = true ->
  Json.scan_once (Json.dump_value v ++ rest) = Ok (v, rest).
Proof.
  destruct v as [|[|]|s]; try reflexivity.
  cbn [plain_value]. intros H. cbn [Json.dump_value].
  rewrite (dump_string_plain s H). cbn [app Json.scan_once].
  rewrite <- app_assoc. cbn [app N.eqb Pos.eqb].
  now rewrite (scan_string_plain s rest H).
Qed.

Lemma join_items (kv : str * pyval) (more : list (str * pyval)) :
  plain (fst kv) = true -> forallb plain_item more = true ->
  join [44; 10; 32; 32] (map Json.dump_item (kv :: more)) ++ [10; 125]
  = 34 :: members_text kv more.
Proof.
  revert kv. induction more as [|kv' more IH]; intros kv Hk Hmore.
  - cbn [map join members_text]. unfold Json.dump_item.
    rewrite (dump_string_plain _ Hk). cbn [app].
    now rewrite <- !app_assoc.
  - cbn [forallb] in Hmore. apply andb_true_iff in Hmore as [Hkv' Hmore].
    apply andb_true_iff in Hkv' as [Hk' _].
    change (map Json.dump_item (kv :: kv' :: more))
      with (Json.dump_item kv :: map Json.dump_item (kv' :: more)).
    cbn [join]. destruct (map Json.dump_item (kv' :: more)) eqn:E;
      [discriminate|]. rewrite <- E. clear E.
    rewrite <- !app_assoc. rewrite (IH kv' Hk' Hmore).
    cbn [members_text]. unfold Json.dump_item.
    rewrite (dump_string_plain _ Hk). cbn [app].
    now rewrite <- !app_assoc.
Qed.

Lemma scan_string_key (s rest : str) :
  plain s = true -> Json.scan_string (s ++ [34] ++ rest) = Ok (s, rest).
Proof. apply scan_string_plain. Qed.

Lemma skip_ws_colon (v : pyval) (rest : str) :
  Json.skip_ws (lit ": " ++ Json.dump_value v ++ rest)
  = 58 :: 32 :: Json.dump_value v ++ rest.
Proof. reflexivity. Qed.

Lemma skip_ws_space (v : pyval) (rest : str) :
  Json.skip_ws (32 :: Json.dump_value v ++ rest) = Json.dump_value v ++ rest.
Proof. apply skip_ws_value. Qed.

Lemma skip_ws_close (rest : str) :
  Json.skip_ws ([10; 125] ++ rest) = 125 :: rest.
Proof. reflexivity. Qed.

Lemma skip_ws_comma (rest : str) :
  Json.skip_ws ([44; 10; 32; 32; 34] ++ rest) = 44 :: 10 :: 32 :: 32 :: 34 :: rest.
Proof. reflexivity. Qed.

Lemma skip_ws_indent (rest : str) :
  Json.skip_ws (10 :: 32 :: 32 :: 34 :: rest) = 34 :: rest.
Proof. reflexivity. Qed.

Lemma scan_members_text (kv : str * pyval) (more : list (str * pyval))
  (fuel : nat) (acc : list (str * pyval)) (rest : str) :
  (length more < fuel)%nat ->
  plain_item kv = true -> forallb plain_item more = true ->
  Json.scan_members fuel (members_text kv more ++ rest) acc
  = Ok (acc ++ kv :: more, rest).
Proof.
  revert kv fuel acc. induction more as [|kv' more IH];
    intros kv fuel acc Hfuel Hkv Hmore;
    (destruct fuel as [|fuel]; [cbn in Hfuel; lia|]);
    apply andb_true_iff in Hkv as [Hk Hv];
    cbn [Json.scan_members members_text];
    rewrite <- !app_assoc; rewrite (scan_string_key _ _ Hk);
    cbn [bind]; rewrite skip_ws_colon, skip_ws_space;
    rewrite (scan_once_value _ _ Hv); cbn [bind].
  - rewrite skip_ws_close. destruct kv; reflexivity.
  - cbn [forallb] in Hmore. apply andb_true_iff in Hmore as [Hkv' Hmore].
    rewrite skip_ws_comma, skip_ws_indent.
    rewrite (IH kv' fuel (acc ++ [(fst kv, snd kv)]));
      [| cbn in Hfuel; lia | exact Hkv' | exact Hmore].
    rewrite <- app_assoc. destruct kv; reflexivity.
Qed.

Lemma members_text_length (kv : str * pyval) (more : list (str * pyval)) :
  (length more < length (members_text kv more))%nat.
Proof.
  revert kv. induction more as [|kv' more IH]; intros kv;
    cbn [members_text]; rewrite !length_app; cbn [length].
  - lia.
  - specialize (IH kv'). lia.
Qed.

Lemma dict_set_fresh (d : dict) (k : str) (v : pyval) :
  ~ In k (map fst d) -> dict_set d k v = d ++ [(k, v)].
Proof.
  induction d as [|[k' v'] d IH]; [reflexivity|].
  cbn [map fst In dict_set app]. intros Hnot.
  destruct (str_eqb k' k) eqn:E.
  - apply str_eqb_eq in E. tauto.
  - rewrite IH by tauto. reflexivity.
Qed.

Lemma dict_of_pairs_from (kvs acc : list (str * pyval)) :
  NoDup (map fst (acc ++ kvs)) ->
  fold_left (fun d kv => dict_set d (fst kv) (snd kv)) kvs acc = acc ++ kvs.
Proof.
  revert acc. induction kvs as [|[k v] kvs IH]; intros acc Hnd.
  - now rewrite app_nil_r.
  - cbn [fold_left fst snd].
    assert (~ In k (map fst acc)) as Hfresh.
    { rewrite map_app in Hnd. cbn [map fst] in Hnd.
      apply NoDup_app in Hnd as (_ & Hdisj & _).
      intros Hin. apply list_elem_of_In in Hin.
      exact (Hdisj k Hin (list_elem_of_here k _)). }
    rewrite (dict_set_fresh _ _ _ Hfresh).
    rewrite IH; rewrite <- app_assoc; [reflexivity | exact Hnd].
Qed.

Lemma dict_of_pairs_nodup (kvs : list (str * pyval)) :
  NoDup (map fst kvs) -> Json.dict_of_pairs kvs = kvs.
Proof. intros H. unfold Json.dict_of_pairs. now rewrite dict_of_pairs_from. Qed.

(** A dictionary of plain strings, booleans and [None], each key once, is
    read back from its JSON text as it was. *)
Lemma loads_dumps (d : dict) :
  NoDup (map fst d) -> forallb plain_item d = true ->
  Json.loads (Json.dumps d) = Ok d.
Proof.
  intros Hnd Hplain. destruct d as [|kv more]; [reflexivity|].
  cbn [forallb] in Hplain. apply andb_true_iff in Hplain as [Hkv Hmore].
  pose proof Hkv as Hkv'. apply andb_true_iff in Hkv' as [Hk _].
  assert (Json.dumps (kv :: more)
          = 123 :: 10 :: 32 :: 32 :: 34 :: members_text kv more ++ []) as ->.
  { unfold Json.dumps. rewrite app_nil_r, <- (join_items kv more Hk Hmore).
    reflexivity. }
  unfold Json.loads.
  change (Json.skip_ws (123 :: ?x)) with (123 :: x).
  change (123 =? 123) with true. cbv beta iota.
  unfold Json.scan_object. rewrite skip_ws_indent.
  change (34 =? 125) with false. change (34 =? 34) with true. cbv beta iota.
  rewrite scan_members_text;
    [| rewrite app_nil_r; pose proof (members_text_length kv more); lia
     | exact Hkv | exact Hmore].
  cbn [bind app Json.skip_ws]. now rewrite dict_of_pairs_nodup.
Qed.

Lemma load_save_state (path : string) (d : dict) (w : World) :
  NoDup (map fst d) -> forallb plain_item d = true ->
  load_state path (save_state path d w) = Ok d.
Proof.
  intros Hnd Hplain. unfold load_state. rewrite files_save_state.
  now apply loads_dumps.
Qed.

Lemma hex_is_plain (s : str) : is_hex s = true -> plain s = true.
Proof.
  unfold is_hex, plain. rewrite !forallb_forall. intros H c Hc.
  specialize (H c Hc). unfold is_hex_cp in H.
  apply plain_cp_spec. apply orb_true_iff in H as [H|H];
    apply in_range_spec in H; lia.
Qed.

Lemma state_item_plain (kv : str * pyval) :
  state_item kv = true -> plain_item kv = true.
Proof.
  destruct kv as [k [|b|h]]; unfold state_item, plain_item; cbn [fst snd];
    try discriminate.
  - intros H. apply str_eqb_eq in H as ->. reflexivity.
  - intros H. apply andb_true_iff in H as [Hk Hh].
    apply str_eqb_eq in Hk as ->. cbn [plain_value].
    now rewrite (hex_is_plain h Hh).
Qed.

Lemma has_key_In (d : dict) (k : str) :
  has_key d k = true <-> In k (map fst d).
Proof.
  induction d as [|[k' v] d IH]; cbn [has_key map fst In].
  - split; [discriminate | tauto].
  - rewrite orb_true_iff, str_eqb_eq, IH. tauto.
Qed.

Lemma distinct_keys_NoDup (d : dict) :
  distinct_keys d = true -> NoDup (map fst d).
Proof.
  induction d as [|[k v] d IH]; cbn [distinct_keys map fst].
  - intros _. apply NoDup_nil_2.
  - intros H. apply andb_true_iff in H as [Hk Hd].
    apply NoDup_cons. split; [|now apply IH].
    rewrite list_elem_of_In, <- has_key_In.
    apply negb_true_iff in Hk. now rewrite Hk.
Qed.

Lemma monitor_state_plain (d : dict) :
  monitor_state d = true ->
  NoDup (map fst d) /\ forallb plain_item d = true.
Proof.
  intros H. apply andb_true_iff in H as [Hnd Hitems].
  split; [now apply distinct_keys_NoDup|].
  rewrite forallb_forall in *. intros kv Hin.
  apply state_item_plain. now apply Hitems.
Qed.

(** C8.  Writing a logical state with [save_state] and reading the file
    with [load_state] gives the same dictionary back. *)
Theorem state_file_roundtrip (path : string) (d : dict) (w : World) :
  monitor_state d = true ->
  load_state path (save_state path d w) = Ok d.
Proof.
  intros Hd. apply monitor_state_plain in Hd as [Hnd Hplain].
  now apply load_save_state.
Qed.

Lemma state_file_roundtrip_witness :
  monitor_state (Scenario.stored "Rooms available" true) = true /\
  load_state "last_state.json"
    (save_state "last_state.json" (Scenario.stored "Rooms available" true)
       Scenario.fresh_world)
  = Ok (Scenario.stored "Rooms available" true).
Proof.
  assert (monitor_state (Scenario.stored "Rooms available" true) = true)
    as Hd by (vm_compute; reflexivity).
  split; [exact Hd|].
  exact (state_file_roundtrip "last_state.json"
           (Scenario.stored "Rooms available" true) Scenario.fresh_world Hd).
Defined.

(** ** The fingerprint across cycles and processes *)

Lemma be_bytes_range (n : nat) (x b : Z) :
  In b (SHA256.be_bytes n x) -> (0 <= b < 256)%Z.
Proof.
  unfold SHA256.be_bytes. rewrite in_map_iff. intros (i & <- & _).
  apply Z.mod_pos_bound. lia.
Qed.

Lemma hex_digit_is_hex (d : Z) :
  (0 <= d < 16)%Z -> is_hex_cp (SHA256.hex_digit d) = true.
Proof.
  intros Hd. unfold SHA256.hex_digit, is_hex_cp.
  destruct (Z.ltb_spec d 10); apply orb_true_iff; [left | right];
    apply in_range_spec; lia.
Qed.

(** The fingerprint is a string of hexadecimal digits. *)
Lemma compute_hash_is_hex (content : bytes) :
  is_hex (compute_hash content) = true.
Proof.
  unfold compute_hash, SHA256.hexdigest, is_hex.
  apply forallb_forall. intros c Hc.
  apply in_flat_map in Hc as (b & Hb & Hc).
  assert (0 <= b < 256)%Z as Hrange.
  { unfold SHA256.digest in Hb. apply in_flat_map in Hb as (x & _ & Hb).
    now apply be_bytes_range in Hb. }
  destruct Hc as [<-|[<-|[]]]; apply hex_digit_is_hex.
  - split; [apply Z.div_pos; lia | apply Z.div_lt_upper_bound; lia].
  - apply Z.mod_pos_bound. lia.
Qed.

Lemma observe_hash (env : Env) (o : Observation) :
  observe env = Ok o -> page_hash o = compute_hash (content o).
Proof.
  unfold observe, fetch_fallback.
  destruct (js_page env) as [text|e].
  - destruct (encode_utf8 text) as [c|].
    + intros H. injection H as <-. reflexivity.
    + destruct (http_page env); cbn [bind]; [|discriminate].
      intros H. injection H as <-. reflexivity.
  - destruct (http_page env); cbn [bind]; [|discriminate].
    intros H. injection H as <-. reflexivity.
Qed.

Lemma observed_hash_is_hex (env : Env) (o : Observation) :
  observe env = Ok o -> is_hex (page_hash o) = true.
Proof.
  intros H. rewrite (observe_hash env o H). apply compute_hash_is_hex.
Qed.

Lemma has_key_set (d : dict) (k k' : str) (v : pyval) :
  has_key (dict_set d k v) k' = has_key d k' || str_eqb k k'.
Proof.
  induction d as [|[k0 v0] d IH]; cbn [dict_set has_key].
  - now rewrite orb_false_r.
  - destruct (str_eqb k0 k) eqn:E; cbn [has_key].
    + apply str_eqb_eq in E as ->.
      destruct (str_eqb k k'); cbn; [reflexivity | now rewrite orb_false_r].
    + rewrite IH. now rewrite orb_assoc.
Qed.

Lemma distinct_keys_set (d : dict) (k : str) (v : pyval) :
  distinct_keys d = true -> distinct_keys (dict_set d k v) = true.
Proof.
  induction d as [|[k0 v0] d IH]; [reflexivity|].
  cbn [distinct_keys dict_set]. intros H.
  apply andb_true_iff in H as [Hk Hd].
  destruct (str_eqb k0 k) eqn:E; cbn [distinct_keys].
  - now rewrite Hk, Hd.
  - rewrite has_key_set, IH by exact Hd.
    apply negb_true_iff in Hk. rewrite Hk. cbn [orb].
    assert (str_eqb k k0 = false) as ->; [|reflexivity].
    apply str_eqb_neq. apply str_eqb_neq in E. congruence.
Qed.

Lemma forallb_set (P : str * pyval -> bool) (d : dict) (k : str) (v : pyval) :
  forallb P d = true -> P (k, v) = true -> forallb P (dict_set d k v) = true.
Proof.
  intros Hd Hkv. induction d as [|[k0 v0] d IH]; cbn [dict_set forallb].
  - now rewrite Hkv.
  - cbn [forallb] in Hd. apply andb_true_iff in Hd as [H0 Hd].
    destruct (str_eqb k0 k) eqn:E; cbn [forallb].
    + apply str_eqb_eq in E as ->. now rewrite Hkv, Hd.
    + now rewrite H0, IH.
Qed.

Lemma monitor_state_set (d : dict) (k : str) (v : pyval) :
  monitor_state d = true -> state_item (k, v) = true ->
  monitor_state (dict_set d k v) = true.
Proof.
  unfold monitor_state. intros H Hkv. apply andb_true_iff in H as [Hd Hi].
  now rewrite distinct_keys_set, forallb_set.
Qed.

Lemma monitor_state_hash (d : dict) :
  monitor_state d = true ->
  dict_get d k_last_hash PNone = PNone \/
  exists h, dict_get d k_last_hash PNone = PStr h /\ is_hex h = true.
Proof.
  unfold monitor_state. intros H. apply andb_true_iff in H as [_ Hi].
  induction d as [|[k v] d IH]; [now left|].
  cbn [forallb] in Hi. apply andb_true_iff in Hi as [Hkv Hi].
  cbn [dict_get]. destruct (str_eqb k k_last_hash) eqn:E; [|now apply IH].
  apply str_eqb_eq in E as ->. unfold state_item in Hkv. cbn [fst snd] in Hkv.
  destruct v as [|b|h]; try discriminate.
  right. exists h. apply andb_true_iff in Hkv as [_ Hh]. now split.
Qed.

Lemma monitor_state_flag (d : dict) :
  monitor_state d = true ->
  exists b, dict_get d k_last_keyword_found (PBool false) = PBool b.
Proof.
  unfold monitor_state. intros H. apply andb_true_iff in H as [_ Hi].
  induction d as [|[k v] d IH]; [now exists false|].
  cbn [forallb] in Hi. apply andb_true_iff in Hi as [Hkv Hi].
  cbn [dict_get]. destruct (str_eqb k k_last_keyword_found) eqn:E;
    [|now apply IH].
  apply str_eqb_eq in E as ->. unfold state_item in Hkv. cbn [fst snd] in Hkv.
  destruct v as [|b|h]; try discriminate. now exists b.
Qed.

Lemma consistent_hash (path : string) (m : Mem) (w : World) (seen : bool) :
  consistent path m w seen ->
  last_hash m = PNone \/ exists h, last_hash m = PStr h /\ is_hex h = true.
Proof.
  intros H. rewrite (inv_dict _ _ _ _ H).
  apply monitor_state_hash, (inv_shape _ _ _ _ H).
Qed.

Lemma check_content_checked (cfg : Config) (env : Env) (o : Observation)
  (m : Mem) (w : World) (seen : bool) :
  consistent (state_file cfg) m w seen ->
  observe env = Ok o ->
  let '(m1, w1, d1) := check_content cfg o m w in
  checked (state_file cfg) o m1 w1 d1.
Proof.
  intros Hinv Hobs. pose proof (observed_hash_is_hex env o Hobs) as Hhex.
  unfold check_content.
  destruct (is_none (last_hash m)) eqn:Hn;
    [| destruct (negb (py_eqb (PStr (page_hash o)) (last_hash m))) eqn:Hc].
  - constructor; cycle_fields.
    + reflexivity.
    + apply monitor_state_set; [apply (inv_shape _ _ _ _ Hinv)|].
      unfold state_item. cbn [fst snd]. now rewrite str_eqb_refl, Hhex.
    + apply (inv_flag _ _ _ _ Hinv).
    + intros _. split; [apply dict_get_set_eq | apply files_save_state].
  - constructor; cycle_fields.
    + reflexivity.
    + apply (inv_shape _ _ _ _ Hinv).
    + apply (inv_flag _ _ _ _ Hinv).
    + discriminate.
  - apply negb_false_iff, py_eqb_eq in Hc.
    constructor; cycle_fields.
    + now rewrite <- Hc.
    + apply (inv_shape _ _ _ _ Hinv).
    + apply (inv_flag _ _ _ _ Hinv).
    + intros _. split; [symmetry; apply (inv_dict _ _ _ _ Hinv)|].
      rewrite (inv_file _ _ _ _ Hinv). destruct seen; [reflexivity|].
      exfalso. assert (last_hash m = PNone) as Hnone
        by now apply (inv_none _ _ _ _ Hinv).
      rewrite Hnone in Hc. discriminate.
Qed.

Lemma check_keyword_checked (cfg : Config) (o : Observation) (m : Mem)
  (w : World) (d : Detection) :
  checked (state_file cfg) o m w d ->
  let '(m2, d2) := check_keyword cfg o m d in
  checked (state_file cfg) o m2 w d2 /\
  content_changed d2 = content_changed d.
Proof.
  intros [Hh Hs Hf Hy]. unfold check_keyword.
  destruct (use_keyword cfg); [|split; [now constructor | reflexivity]].
  destruct (first_variation _ _) as [used|];
    (split; [constructor; cycle_fields; eauto | reflexivity]).
Qed.

Lemma notify_consistent (cfg : Config) (env : Env) (o : Observation)
  (m : Mem) (w : World) (d : Detection) :
  is_hex (page_hash o) = true ->
  checked (state_file cfg) o m w d ->
  let '(m3, w3) := notify cfg env m w d in
  consistent (state_file cfg) m3 w3 true /\
  last_hash m3 = PStr (page_hash o).
Proof.
  intros Hhex [Hh Hs [b Hb] Hy]. unfold notify.
  destruct (changed d) eqn:Hch; cbn [send_email].
  - split; [|exact Hh]. constructor; cycle_fields.
    + rewrite Hh. split; discriminate.
    + rewrite dict_get_set_ne by (symmetry; apply keys_differ).
      now rewrite dict_get_set_eq.
    + apply monitor_state_set; [apply monitor_state_set; [exact Hs|]|].
      * rewrite Hh. unfold state_item. cbn [fst snd].
        now rewrite str_eqb_refl, Hhex.
      * rewrite Hb. reflexivity.
    + now exists b.
    + apply files_save_state.
    + discriminate.
  - unfold changed in Hch. apply orb_false_iff in Hch as [Hcc _].
    destruct (Hy Hcc) as [Hget Hfile].
    split; [|exact Hh]. constructor.
    + rewrite Hh. split; discriminate.
    + now symmetry.
    + exact Hs.
    + now exists b.
    + exact Hfile.
    + discriminate.
Qed.

(** A cycle keeps memory and world consistent; a completed one leaves the
    fingerprint of what it observed in memory. *)
Lemma cycle_consistent (cfg : Config) (env : Env) (m : Mem) (w : World)
  (seen : bool) (m' : Mem) (w' : World) (r : result Detection) :
  consistent (state_file cfg) m w seen ->
  cycle cfg env m w = (m', w', r) ->
  consistent (state_file cfg) m' w' (seen || completed r).
Proof.
  intros Hinv Hcycle. destruct (observe env) as [o|e] eqn:Hobs.
  - rewrite (cycle_observed _ _ _ _ _ Hobs) in Hcycle.
    pose proof (check_content_checked cfg env o m w seen Hinv Hobs) as H1.
    destruct (check_content cfg o m w) as [[m1 w1] d1].
    pose proof (check_keyword_checked cfg o m1 w1 d1 H1) as H2.
    destruct (check_keyword cfg o m1 d1) as [m2 d2]. destruct H2 as [H2 _].
    pose proof (notify_consistent cfg env o m2 w1 d2
                  (observed_hash_is_hex env o Hobs) H2) as H3.
    destruct (notify cfg env m2 w1 d2) as [m3 w3].
    injection Hcycle as <- <- <-. cbn [completed].
    rewrite orb_true_r. apply H3.
  - unfold cycle in Hcycle. rewrite Hobs in Hcycle.
    injection Hcycle as <- <- <-. cbn [completed]. now rewrite orb_false_r.
Qed.

Lemma boot_consistent (path : string) (m : Mem) (w : World) (seen : bool)
  (st : dict) :
  consistent path m w seen ->
  load_state path w = Ok st ->
  st = state m /\ consistent path (boot st) w seen.
Proof.
  intros Hinv Hload.
  assert (st = state m) as ->.
  { unfold load_state in Hload. rewrite (inv_file _ _ _ _ Hinv) in Hload.
    destruct seen.
    - destruct (monitor_state_plain _ (inv_shape _ _ _ _ Hinv)) as [Hnd Hp].
      rewrite (loads_dumps _ Hnd Hp) in Hload. now injection Hload as <-.
    - injection Hload as <-. symmetry. now apply (inv_fresh _ _ _ _ Hinv). }
  split; [reflexivity|]. constructor; cbn [boot state last_hash last_keyword_found].
  - rewrite <- (inv_dict _ _ _ _ Hinv). apply (inv_none _ _ _ _ Hinv).
  - reflexivity.
  - apply (inv_shape _ _ _ _ Hinv).
  - apply monitor_state_flag, (inv_shape _ _ _ _ Hinv).
  - apply (inv_file _ _ _ _ Hinv).
  - apply (inv_fresh _ _ _ _ Hinv).
Qed.

Lemma reachable_consistent (path : string) (m : Mem) (w : World)
  (seen : bool) :
  reachable path m w seen -> consistent path m w seen.
Proof.
  induction 1 as [w Hfile | cfg env m w seen m' w' r _ IH Hpath Hcycle
                 | m w seen st _ IH Hload].
  - constructor; cbn [boot state last_hash last_keyword_found dict_get];
      try tauto; try reflexivity. now exists false.
  - subst path. now apply (cycle_consistent cfg env m w seen).
  - now apply (boot_consistent path m w seen st).
Qed.




(** ** The reader never runs out of fuel *)

Lemma push_cases (c : N) (r : result (str * str)) :
  match Json.push c r with
  | Ok (v, rest) => exists v', r = Ok (v', rest)
  | Raise e => r = Raise e
  end.
Proof. destruct r as [[v rest]|e]; cbn; eauto. Qed.

(** [scan_string] consumes input when it succeeds and raises nothing but
    [JSONDecodeError]. *)
Lemma scan_string_total (n : nat) (s : str) :
  (length s <= n)%nat ->
  match Json.scan_string s with
  | Ok (v, rest) => (length rest < length s)%nat
  | Raise e => e = JSONDecodeError
  end.
Proof.
  revert s. induction n as [|n IH]; intros s Hn.
  { destruct s; [reflexivity | cbn in Hn; lia]. }
  assert (forall c r, (length r < length s)%nat ->
            match Json.push c (Json.scan_string r) with
            | Ok (v, rest) => (length rest < length s)%nat
            | Raise e => e = JSONDecodeError
            end) as Hpush.
  { intros c r Hr. pose proof (push_cases c (Json.scan_string r)) as Hp.
    assert (length r <= n)%nat as Hrn by lia. specialize (IH r Hrn).
    destruct (Json.push c (Json.scan_string r)) as [[v rest]|e].
    - destruct Hp as [v' Hv]. rewrite Hv in IH. lia.
    - rewrite Hp in IH. exact IH. }
  destruct s as [|c r]; [reflexivity|]. cbn [Json.scan_string].
  destruct (c =? 34); [cbn; lia|].
  destruct (c =? 92).
  - destruct r as [|e r1]; [reflexivity|].
    destruct (e =? 117).
    + destruct r1 as [|h1 [|h2 [|h3 [|h4 r2]]]]; try reflexivity.
      destruct (Json.hex4 h1 h2 h3 h4) as [u|]; [|reflexivity].
      destruct (in_range 55296 56319 u); [|apply Hpush; cbn; lia].
      destruct r2 as [|a [|b [|l1 [|l2 [|l3 [|l4 r3]]]]]];
        try (apply Hpush; cbn; lia).
      destruct (Json.hex4 l1 l2 l3 l4) as [lo|]; [|apply Hpush; cbn; lia].
      destruct ((a =? 92) && (b =? 117) && in_range 56320 57343 lo);
        apply Hpush; cbn; lia.
    + destruct (Json.simple_escape e); [apply Hpush; cbn; lia | reflexivity].
  - destruct (c <? 32); [reflexivity | apply Hpush; cbn; lia].
Qed.

Lemma skip_ws_length (s : str) : (length (Json.skip_ws s) <= length s)%nat.
Proof.
  induction s as [|c s IH]; [reflexivity|].
  cbn [Json.skip_ws]. destruct (Json.is_ws c); cbn [length]; lia.
Qed.

Lemma scan_once_total (s : str) :
  match Json.scan_once s with
  | Ok (v, rest) => (length rest < length s)%nat
  | Raise e => e <> OutOfFuel
  end.
Proof.
  destruct s as [|c r]; [discriminate|]. unfold Json.scan_once.
  destruct (c =? 34).
  { pose proof (scan_string_total (length r) r (Nat.le_refl _)) as H.
    destruct (Json.scan_string r) as [[v rest]|e]; cbn [bind].
    - cbn [length]. lia.
    - subst e. discriminate. }
  destruct (startswith (lit "null") (c :: r));
    [rewrite length_drop; cbn [length]; lia|].
  destruct (startswith (lit "true") (c :: r));
    [rewrite length_drop; cbn [length]; lia|].
  destruct (startswith (lit "false") (c :: r));
    [rewrite length_drop; cbn [length]; lia|].
  destruct (_ || _); [discriminate|].
  destruct (c =? 45); [|discriminate].
  destruct r as [|d r]; [discriminate|].
  destruct (_ || _); discriminate.
Qed.

Lemma scan_members_total (fuel : nat) (s : str) (acc : list (str * pyval)) :
  (length s < fuel)%nat -> Json.scan_members fuel s acc <> Raise OutOfFuel.
Proof.
  revert s acc. induction fuel as [|fuel IH]; intros s acc Hfuel; [lia|].
  cbn [Json.scan_members].
  pose proof (scan_string_total (length s) s (Nat.le_refl _)) as Hkey.
  destruct (Json.scan_string s) as [[key s1]|e]; cbn [bind];
    [|subst e; discriminate].
  pose proof (skip_ws_length s1) as H1.
  destruct (Json.skip_ws s1) as [|colon s2]; [discriminate|].
  destruct (colon =? 58); [|discriminate].
  pose proof (skip_ws_length s2) as H2.
  pose proof (scan_once_total (Json.skip_ws s2)) as Hval.
  destruct (Json.scan_once (Json.skip_ws s2)) as [[value s3]|e]; cbn [bind];
    [|congruence].
  pose proof (skip_ws_length s3) as H3.
  destruct (Json.skip_ws s3) as [|next s4]; [discriminate|].
  destruct (next =? 125); [discriminate|].
  destruct (next =? 44); [|discriminate].
  pose proof (skip_ws_length s4) as H4.
  destruct (Json.skip_ws s4) as [|quote s5]; [discriminate|].
  destruct (quote =? 34); [|discriminate].
  apply IH. cbn [length] in *. lia.
Qed.

(** Reading a state file ends with a dictionary or with an exception of
    the reader; the fuel of [scan_members] always suffices. *)
Lemma loads_total (text : str) : Json.loads text <> Raise OutOfFuel.
Proof.
  unfold Json.loads. destruct (Json.skip_ws text) as [|c s]; [discriminate|].
  destruct (c =? 123).
  - unfold Json.scan_object.
    destruct (Json.skip_ws s) as [|c' rest]; [discriminate|].
    destruct (c' =? 125).
    + cbn [bind]. destruct (Json.skip_ws rest); discriminate.
    + destruct (c' =? 34); [|discriminate].
      pose proof (scan_members_total (S (length rest)) rest []
                    (Nat.lt_succ_diag_r _)) as H.
      destruct (Json.scan_members _ _ _) as [[pairs rest']|e]; cbn [bind].
      * destruct (Json.skip_ws rest'); discriminate.
      * congruence.
  - pose proof (scan_once_total (c :: s)) as H.
    destruct (Json.scan_once (c :: s)) as [[v rest]|e]; cbn [bind];
      [discriminate | congruence].
Qed.

(** * Further properties of the code *)

(** ** The fingerprint *)

Lemma round_length (s : list Z) (kw : Z * Z) :
  length (SHA256.round s kw) = length s.
Proof.
  unfold SHA256.round.
  destruct s as [|a [|b [|c [|d [|e [|f [|g [|h [|i s]]]]]]]]]; reflexivity.
Qed.

Lemma rounds_length (kws : list (Z * Z)) (s : list Z) :
  length (fold_left SHA256.round kws s) = length s.
Proof.
  revert s. induction kws as [|kw kws IH]; intros s; [reflexivity|].
  cbn [fold_left]. now rewrite IH, round_length.
Qed.

Lemma compress_length (h block : list Z) :
  length (SHA256.compress h block) = length h.
Proof.
  unfold SHA256.compress.
  rewrite length_map, length_combine, rounds_length. lia.
Qed.

Lemma blocks_length (fuel : nat) (h ws : list Z) :
  length (SHA256.blocks fuel h ws) = length h.
Proof.
  revert h ws. induction fuel as [|fuel IH]; intros h ws; [reflexivity|].
  cbn [SHA256.blocks]. destruct ws as [|x ws]; [reflexivity|].
  now rewrite IH, compress_length.
Qed.

Lemma flat_map_length_const {A B : Type} (f : A -> list B) (k : nat)
  (l : list A) :
  (forall x, length (f x) = k) -> length (flat_map f l) = (k * length l)%nat.
Proof.
  intros Hf. induction l as [|x l IH]; cbn [flat_map length]; [lia|].
  rewrite length_app, Hf, IH. lia.
Qed.

(** X1.  [compute_hash] returns 64 characters, all of them lower-case
    hexadecimal digits, whatever the content. *)
Theorem compute_hash_shape (content : bytes) :
  length (compute_hash content) = 64%nat /\
  is_hex (compute_hash content) = true.
Proof.
  split; [|apply compute_hash_is_hex].
  unfold compute_hash, SHA256.hexdigest, SHA256.digest.
  rewrite (flat_map_length_const _ 2) by reflexivity.
  rewrite (flat_map_length_const _ 4).
  - now rewrite blocks_length.
  - intros x. unfold SHA256.be_bytes. now rewrite length_map.
Qed.

(** ** The two ways of fetching *)

Lemma to_N_byte_of (n : N) : n < 256 -> Byte.to_N (byte_of n) = n.
Proof.
  intros Hn. unfold byte_of. rewrite N.mod_small by exact Hn.
  destruct (Byte.of_N n) as [b|] eqn:E.
  - now apply Byte.to_of_N.
  - apply Byte.of_N_None_iff in E. lia.
Qed.

Lemma is_cont_true (b : N) : 128 <= b <= 191 -> is_cont b = true.
Proof. apply in_range_spec. Qed.

Lemma second_ok_true (lead b2 : N) :
  128 <= b2 <= 191 ->
  (lead = 224 -> 160 <= b2) -> (lead = 237 -> b2 < 160) ->
  (lead = 240 -> 144 <= b2) -> (lead = 244 -> b2 < 144) ->
  second_ok lead b2 = true.
Proof.
  intros Hc H224 H237 H240 H244. unfold second_ok.
  rewrite (is_cont_true b2 Hc). cbn [andb].
  destruct (N.eqb_spec lead 224); [apply N.leb_le; auto|].
  destruct (N.eqb_spec lead 237); [apply N.ltb_lt; auto|].
  destruct (N.eqb_spec lead 240); [apply N.leb_le; auto|].
  destruct (N.eqb_spec lead 244); [apply N.ltb_lt; auto|].
  reflexivity.
Qed.

(** The decoder on well-formed sequences of one to four bytes. *)
Lemma decode_one (b : N) (rest : bytes) :
  b < 128 ->
  decode_utf8_ignore (byte_of b :: rest) = b :: decode_utf8_ignore rest.
Proof.
  intros Hb. cbn [decode_utf8_ignore]. rewrite !to_N_byte_of by lia.
  cbn zeta. settle_ltb. reflexivity.
Qed.

Lemma decode_two (b1 b2 : N) (rest : bytes) :
  194 <= b1 < 224 -> 128 <= b2 <= 191 ->
  decode_utf8_ignore (byte_of b1 :: byte_of b2 :: rest)
  = ((b1 - 192) * 64 + (b2 - 128)) :: decode_utf8_ignore rest.
Proof.
  intros H1 H2. cbn [decode_utf8_ignore]. rewrite !to_N_byte_of by lia.
  cbn zeta. settle_ltb. now rewrite is_cont_true by lia.
Qed.

Lemma decode_three (b1 b2 b3 : N) (rest : bytes) :
  224 <= b1 < 240 -> second_ok b1 b2 = true -> 128 <= b3 <= 191 ->
  decode_utf8_ignore (byte_of b1 :: byte_of b2 :: byte_of b3 :: rest)
  = ((b1 - 224) * 4096 + (b2 - 128) * 64 + (b3 - 128))
      :: decode_utf8_ignore rest.
Proof.
  intros H1 H2 H3.
  assert (b2 < 256) as Hb2.
  { unfold second_ok in H2. apply andb_true_iff in H2 as [H2 _].
    apply in_range_spec in H2. lia. }
  cbn [decode_utf8_ignore]. rewrite !to_N_byte_of by lia.
  cbn zeta. settle_ltb. rewrite H2. cbn [negb].
  now rewrite is_cont_true by lia.
Qed.

Lemma decode_four (b1 b2 b3 b4 : N) (rest : bytes) :
  240 <= b1 < 245 -> second_ok b1 b2 = true -> 128 <= b3 <= 191 ->
  128 <= b4 <= 191 ->
  decode_utf8_ignore
    (byte_of b1 :: byte_of b2 :: byte_of b3 :: byte_of b4 :: rest)
  = ((b1 - 240) * 262144 + (b2 - 128) * 4096 + (b3 - 128) * 64 + (b4 - 128))
      :: decode_utf8_ignore rest.
Proof.
  intros H1 H2 H3 H4.
  assert (b2 < 256) as Hb2.
  { unfold second_ok in H2. apply andb_true_iff in H2 as [H2 _].
    apply in_range_spec in H2. lia. }
  cbn [decode_utf8_ignore]. rewrite !to_N_byte_of by lia.
  cbn zeta. settle_ltb. rewrite H2. cbn [negb].
  now rewrite !is_cont_true by lia.
Qed.

(** Decoding what was encoded gives the code point back. *)
Lemma decode_encode_cp (c : N) (bs rest : bytes) :
  encode_cp c = Some bs ->
  decode_utf8_ignore (bs ++ rest) = c :: decode_utf8_ignore rest.
Proof.
  unfold encode_cp.
  destruct (N.ltb_spec c 128) as [H1|H1].
  { intros H. injection H as <-. now apply decode_one. }
  destruct (N.ltb_spec c 2048) as [H2|H2].
  { assert (c = 64 * (c / 64) + c mod 64 /\ c mod 64 < 64) as [Hc Hd]
      by (zify; Z.to_euclidean_division_equations; lia).
    remember (c / 64) as a eqn:Ea. remember (c mod 64) as d eqn:Ed.
    clear Ea Ed.
    intros H. injection H as <-. cbn [app].
    rewrite decode_two by lia. f_equal. lia. }
  destruct (in_range 55296 57343 c) eqn:Hs; [discriminate|].
  apply in_range_false in Hs.
  destruct (N.ltb_spec c 65536) as [H3|H3].
  { assert (c = 4096 * (c / 4096) + 64 * ((c / 64) mod 64) + c mod 64 /\
            (c / 64) mod 64 < 64 /\ c mod 64 < 64) as (Hc & Hb & Hd)
      by (zify; Z.to_euclidean_division_equations; lia).
    remember (c / 4096) as a eqn:Ea. remember ((c / 64) mod 64) as b eqn:Eb.
    remember (c mod 64) as d eqn:Ed. clear Ea Eb Ed.
    intros H. injection H as <-. cbn [app].
    rewrite decode_three;
      [f_equal; lia | lia | apply second_ok_true; lia | lia]. }
  destruct (N.ltb_spec c 1114112) as [H4|H4]; [|discriminate].
  assert (c = 262144 * (c / 262144) + 4096 * ((c / 4096) mod 64)
              + 64 * ((c / 64) mod 64) + c mod 64 /\
          (c / 4096) mod 64 < 64 /\ (c / 64) mod 64 < 64 /\ c mod 64 < 64)
    as (Hc & Ha & Hb & Hd)
    by (zify; Z.to_euclidean_division_equations; lia).
  remember (c / 262144) as z eqn:Ez. remember ((c / 4096) mod 64) as a eqn:Ea.
  remember ((c / 64) mod 64) as b eqn:Eb. remember (c mod 64) as d eqn:Ed.
  clear Ez Ea Eb Ed.
  intros H. injection H as <-. cbn [app].
  rewrite decode_four;
    [f_equal; lia | lia | apply second_ok_true; lia | lia | lia].
Qed.

Lemma decode_encode (s : str) (bs : bytes) :
  encode_utf8 s = Some bs -> decode_utf8_ignore bs = s.
Proof.
  revert bs. induction s as [|c s IH]; intros bs.
  - intros H. injection H as <-. reflexivity.
  - cbn [encode_utf8]. destruct (encode_cp c) as [b|] eqn:Ec; [|discriminate].
    destruct (encode_utf8 s) as [bs'|]; [|discriminate].
    intros H. injection H as <-.
    rewrite (decode_encode_cp c b bs' Ec). f_equal. now apply IH.
Qed.

(** X2.  The two ways of fetching agree: a cycle that gets a text from the
    renderer and a cycle whose renderer raises and whose plain request
    returns the UTF-8 bytes of that text bind the same lower-cased text,
    content and fingerprint. *)
Theorem fetch_paths_agree (envJ envH : Env) (text : str) (bs : bytes)
  (e : exn) :
  js_page envJ = Ok text ->
  encode_utf8 text = Some bs ->
  js_page envH = Raise e ->
  http_page envH = Ok bs ->
  observe envJ = observe envH /\
  exists o, observe envH = Ok o /\ text_lower o = lower text /\
            page_hash o = compute_hash bs.
Proof.
  intros HJ Hbs HH Hhttp. unfold observe, fetch_fallback.
  rewrite HJ, Hbs, HH, Hhttp. cbn [bind].
  rewrite (decode_encode text bs Hbs). split; [reflexivity|].
  eexists. split; [reflexivity|]. split; reflexivity.
Qed.

Lemma fetch_paths_agree_witness :
  js_page (Scenario.rendered "Rooms available" true)
  = Ok (lit "Rooms available") /\
  encode_utf8 (lit "Rooms available") = Some (ascii_bytes "Rooms available") /\
  js_page {| js_page := Raise OtherException;
             http_page := Ok (ascii_bytes "Rooms available");
             smtp_ok := true; sleep_ok := true |} = Raise OtherException /\
  http_page {| js_page := Raise OtherException;
               http_page := Ok (ascii_bytes "Rooms available");
               smtp_ok := true; sleep_ok := true |}
  = Ok (ascii_bytes "Rooms available") /\
  observe (Scenario.rendered "Rooms available" true)
  = observe {| js_page := Raise OtherException;
               http_page := Ok (ascii_bytes "Rooms available");
               smtp_ok := true; sleep_ok := true |} /\
  exists o,
    observe {| js_page := Raise OtherException;
               http_page := Ok (ascii_bytes "Rooms available");
               smtp_ok := true; sleep_ok := true |} = Ok o /\
    text_lower o = lower (lit "Rooms available") /\
    page_hash o = compute_hash (ascii_bytes "Rooms available").
Proof.
  split; [reflexivity|]. split; [reflexivity|].
  split; [reflexivity|]. split; [reflexivity|].
  exact (fetch_paths_agree (Scenario.rendered "Rooms available" true)
           {| js_page := Raise OtherException;
              http_page := Ok (ascii_bytes "Rooms available");
              smtp_ok := true; sleep_ok := true |}
           (lit "Rooms available") (ascii_bytes "Rooms available")
           OtherException eq_refl eq_refl eq_refl eq_refl).
Defined.

(** ** What a cycle detects, writes and sends *)

(** X3.  The detection of a completed cycle is a function of the stored
    fingerprint, the configuration and the observation alone: the content
    counts as changed when a fingerprint is stored and differs from the
    page's; the keyword counts as found when matching is enabled and the
    search succeeds; the change reason and sample come first, the keyword
    reason and sample second. *)
Theorem detection_result (cfg : Config) (env : Env) (m : Mem) (w : World)
  (o : Observation) :
  observe env = Ok o ->
  exists m' w' d,
    cycle cfg env m w = (m', w', Ok d) /\
    content_changed d
    = negb (is_none (last_hash m))
      && negb (py_eqb (PStr (page_hash o)) (last_hash m)) /\
    keyword_found d = use_keyword cfg && found (keyword cfg) (text_lower o) /\
    reasons d
    = (if content_changed d then [change_reason] else [])
      ++ (if keyword_found d then [keyword_reason (keyword cfg)] else []) /\
    samples d
    = (if content_changed d then [change_sample o] else [])
      ++ (if use_keyword cfg
          then match first_variation (search_variations (keyword cfg))
                       (text_lower o) with
               | Some used => [keyword_sample (text_lower o) used]
               | None => []
               end
          else []).
Proof.
  intros Hobs. rewrite (cycle_observed _ _ _ _ _ Hobs).
  unfold check_content.
  destruct (is_none (last_hash m));
    [| destruct (negb (py_eqb (PStr (page_hash o)) (last_hash m)))];
    unfold check_keyword, found;
    destruct (use_keyword cfg);
    try destruct (first_variation _ _) as [used|];
    unfold notify, changed; cycle_fields; cbn [send_email];
    do 3 eexists; (split; [reflexivity|]); cycle_fields;
    cbn [negb andb app]; repeat split.
Qed.

Lemma detection_result_witness :
  observe (Scenario.rendered "New VACANCY posted" true)
  = Ok (Scenario.seen "New VACANCY posted") /\
  exists m' w' d,
    cycle (Scenario.cfg true "vacancy" false)
      (Scenario.rendered "New VACANCY posted" true)
      (boot (Scenario.stored "Rooms available" false))
      (Scenario.world_after "Rooms available" false) = (m', w', Ok d) /\
    content_changed d
    = negb (is_none (last_hash (boot (Scenario.stored "Rooms available" false))))
      && negb (py_eqb (PStr (page_hash (Scenario.seen "New VACANCY posted")))
                 (last_hash (boot (Scenario.stored "Rooms available" false)))) /\
    keyword_found d
    = use_keyword (Scenario.cfg true "vacancy" false)
      && found (keyword (Scenario.cfg true "vacancy" false))
           (text_lower (Scenario.seen "New VACANCY posted")) /\
    reasons d
    = (if content_changed d then [change_reason] else [])
      ++ (if keyword_found d
          then [keyword_reason (keyword (Scenario.cfg true "vacancy" false))]
          else []) /\
    samples d
    = (if content_changed d
       then [change_sample (Scenario.seen "New VACANCY posted")] else [])
      ++ (if use_keyword (Scenario.cfg true "vacancy" false)
          then match first_variation
                       (search_variations
                          (keyword (Scenario.cfg true "vacancy" false)))
                       (text_lower (Scenario.seen "New VACANCY posted")) with
               | Some used =>
                   [keyword_sample
                      (text_lower (Scenario.seen "New VACANCY posted")) used]
               | None => []
               end
          else []).
Proof.
  assert (observe (Scenario.rendered "New VACANCY posted" true)
          = Ok (Scenario.seen "New VACANCY posted")) as Hobs
    by (vm_compute; reflexivity).
  split; [exact Hobs|].
  exact (detection_result (Scenario.cfg true "vacancy" false)
           (Scenario.rendered "New VACANCY posted" true)
           (boot (Scenario.stored "Rooms available" false))
           (Scenario.world_after "Rooms available" false)
           (Scenario.seen "New VACANCY posted") Hobs).
Defined.



(** X5.  Whether the mail is delivered changes nothing of what a cycle
    keeps: two cycles that differ only in the answer of the mail transport
    end with the same memory, the same files and the same detection. *)
Theorem delivery_does_not_matter (cfg : Config) (env env' : Env) (m : Mem)
  (w : World) :
  js_page env = js_page env' ->
  http_page env = http_page env' ->
  fst (fst (cycle cfg env m w)) = fst (fst (cycle cfg env' m w)) /\
  files (snd (fst (cycle cfg env m w)))
  = files (snd (fst (cycle cfg env' m w))) /\
  snd (cycle cfg env m w) = snd (cycle cfg env' m w).
Proof.
  intros Hjs Hhttp.
  assert (observe env = observe env') as Hobs.
  { unfold observe, fetch_fallback. now rewrite Hjs, Hhttp. }
  unfold cycle. rewrite <- Hobs. destruct (observe env) as [o|e]; [|now split].
  destruct (check_content cfg o m w) as [[m1 w1] d1].
  destruct (check_keyword cfg o m1 d1) as [m2 d2].
  unfold notify. destruct (changed d2); cbn [send_email fst snd files save_state];
    repeat split.
Qed.

Lemma delivery_does_not_matter_witness :
  js_page (Scenario.rendered "New VACANCY posted" true)
  = js_page (Scenario.rendered "New VACANCY posted" false) /\
  http_page (Scenario.rendered "New VACANCY posted" true)
  = http_page (Scenario.rendered "New VACANCY posted" false) /\
  fst (fst (cycle (Scenario.cfg true "vacancy" false)
              (Scenario.rendered "New VACANCY posted" true)
              Scenario.fresh_mem Scenario.fresh_world))
  = fst (fst (cycle (Scenario.cfg true "vacancy" false)
                (Scenario.rendered "New VACANCY posted" false)
                Scenario.fresh_mem Scenario.fresh_world)) /\
  files (snd (fst (cycle (Scenario.cfg true "vacancy" false)
                     (Scenario.rendered "New VACANCY posted" true)
                     Scenario.fresh_mem Scenario.fresh_world)))
  = files (snd (fst (cycle (Scenario.cfg true "vacancy" false)
                       (Scenario.rendered "New VACANCY posted" false)
                       Scenario.fresh_mem Scenario.fresh_world))) /\
  snd (cycle (Scenario.cfg true "vacancy" false)
         (Scenario.rendered "New VACANCY posted" true)
         Scenario.fresh_mem Scenario.fresh_world)
  = snd (cycle (Scenario.cfg true "vacancy" false)
           (Scenario.rendered "New VACANCY posted" false)
           Scenario.fresh_mem Scenario.fresh_world).
Proof.
  split; [reflexivity|]. split; [reflexivity|].
  exact (delivery_does_not_matter (Scenario.cfg true "vacancy" false)
           (Scenario.rendered "New VACANCY posted" true)
           (Scenario.rendered "New VACANCY posted" false)
           Scenario.fresh_mem Scenario.fresh_world eq_refl eq_refl).
Defined.

(** ** The message *)

(** A notifying cycle has a sample to show. *)
Lemma cycle_sample_nonempty (cfg : Config) (env : Env) (m : Mem) (w : World)
  (o : Observation) :
  observe env = Ok o ->
  exists m' w' d,
    cycle cfg env m w = (m', w', Ok d) /\
    (changed d = true -> join [10; 10] (samples d) <> []).
Proof.
  intros Hobs. rewrite (cycle_observed _ _ _ _ _ Hobs).
  unfold check_content.
  destruct (is_none (last_hash m));
    [| destruct (negb (py_eqb (PStr (page_hash o)) (last_hash m)))];
    unfold check_keyword;
    destruct (use_keyword cfg);
    try destruct (first_variation _ _) as [used|];
    unfold notify, changed; cycle_fields; cbn [send_email];
    do 3 eexists; (split; [reflexivity|]); cycle_fields; cbn [app];
    intros Hch; try discriminate Hch;
    apply join_cons_nonempty; discriminate.
Qed.

(** X6.  Every message a cycle sends has the four lines of
    [build_message]: the sample of a notifying cycle is never empty, so the
    "Sample:" line is always there. *)
Theorem notification_message (cfg : Config) (env : Env) (m : Mem) (w : World)
  (o : Observation) :
  observe env = Ok o ->
  exists m' w' d,
    cycle cfg env m w = (m', w', Ok d) /\
    (changed d = true ->
     message_of cfg d
     = lit "Hostel site update" ++ [10]
       ++ lit "URL: " ++ url cfg ++ [10]
       ++ lit "Reason: " ++ join (lit " | ") (reasons d) ++ [10]
       ++ lit "Sample: " ++ join [10; 10] (samples d)).
Proof.
  intros Hobs.
  destruct (cycle_sample_nonempty cfg env m w o Hobs)
    as (m' & w' & d & Hc & Hne).
  exists m', w', d. split; [exact Hc|]. intros Hch. specialize (Hne Hch).
  unfold message_of, build_message.
  destruct (join [10; 10] (samples d)) as [|c sample]; [congruence|].
  cbn [join app]. now rewrite <- !app_assoc.
Qed.

Lemma notification_message_witness :
  observe (Scenario.rendered "New VACANCY posted" true)
  = Ok (Scenario.seen "New VACANCY posted") /\
  exists m' w' d,
    cycle (Scenario.cfg true "vacancy" false)
      (Scenario.rendered "New VACANCY posted" true)
      Scenario.fresh_mem Scenario.fresh_world = (m', w', Ok d) /\
    (changed d = true ->
     message_of (Scenario.cfg true "vacancy" false) d
     = lit "Hostel site update" ++ [10]
       ++ lit "URL: " ++ url (Scenario.cfg true "vacancy" false) ++ [10]
       ++ lit "Reason: " ++ join (lit " | ") (reasons d) ++ [10]
       ++ lit "Sample: " ++ join [10; 10] (samples d)).
Proof.
  assert (observe (Scenario.rendered "New VACANCY posted" true)
          = Ok (Scenario.seen "New VACANCY posted")) as Hobs
    by (vm_compute; reflexivity).
  split; [exact Hobs|].
  exact (notification_message (Scenario.cfg true "vacancy" false)
           (Scenario.rendered "New VACANCY posted" true)
           Scenario.fresh_mem Scenario.fresh_world
           (Scenario.seen "New VACANCY posted") Hobs).
Defined.

(** ** The keyword search and its sample *)

Lemma first_variation_contains (vars : list str) (text used : str) :
  first_variation vars text = Some used ->
  In used vars /\ contains (lower used) text = true.
Proof.
  induction vars as [|v vars IH]; [discriminate|].
  cbn [first_variation In]. destruct (contains (lower v) text) eqn:E.
  - intros H. injection H as <-. split; [now left | exact E].
  - intros H. destruct (IH H) as [Hin Hc]. split; [now right | exact Hc].
Qed.

(** X7.  For a keyword in the range U+0000..U+00FF, the four wrapped
    variations (padded with spaces, between angle brackets, between double
    or single quotes) never decide the search: the keyword is found exactly
    when the keyword, or the lower-case form of its upper-cased or
    capitalized form, is in the text, and the variation reported is one of
    these three. *)
Theorem wrapped_variations_never_decide (cfg : Config) (o : Observation) :
  latin1 (config_keyword cfg) = true ->
  found (keyword cfg) (text_lower o)
  = contains (keyword cfg) (text_lower o)
    || contains (lower (upper (keyword cfg))) (text_lower o)
    || contains (lower (capitalize (keyword cfg))) (text_lower o) /\
  match first_variation (search_variations (keyword cfg)) (text_lower o) with
  | Some used =>
      used = keyword cfg \/ used = upper (keyword cfg) \/
      used = capitalize (keyword cfg)
  | None => True
  end.
Proof.
  intros _. generalize (text_lower o) as text. intros text.
  unfold found, search_variations. cbn [first_variation].
  rewrite !lower_app, keyword_lower.
  destruct (contains (keyword cfg) text) eqn:E; [split; [reflexivity | now left]|].
  destruct (contains (lower (upper (keyword cfg))) text);
    [split; [reflexivity | right; now left]|].
  destruct (contains (lower (capitalize (keyword cfg))) text);
    [split; [reflexivity | right; now right]|].
  repeat match goal with
         | |- context [contains (?a ++ keyword cfg ++ ?b) ?t] =>
             let E' := fresh "E" in
             destruct (contains (a ++ keyword cfg ++ b) t) eqn:E';
             [apply contains_inner in E'; congruence|]
         end.
  split; [reflexivity | exact I].
Qed.

Lemma wrapped_variations_never_decide_witness :
  latin1 (config_keyword (Scenario.cfg_str true [223] false)) = true /\
  found (keyword (Scenario.cfg_str true [223] false))
    (text_lower (Scenario.seen "Strasse"))
  = contains (keyword (Scenario.cfg_str true [223] false))
      (text_lower (Scenario.seen "Strasse"))
    || contains (lower (upper (keyword (Scenario.cfg_str true [223] false))))
         (text_lower (Scenario.seen "Strasse"))
    || contains
         (lower (capitalize (keyword (Scenario.cfg_str true [223] false))))
         (text_lower (Scenario.seen "Strasse")) /\
  match first_variation
          (search_variations (keyword (Scenario.cfg_str true [223] false)))
          (text_lower (Scenario.seen "Strasse")) with
  | Some used =>
      used = keyword (Scenario.cfg_str true [223] false) \/
      used = upper (keyword (Scenario.cfg_str true [223] false)) \/
      used = capitalize (keyword (Scenario.cfg_str true [223] false))
  | None => True
  end.
Proof.
  split; [reflexivity|].
  exact (wrapped_variations_never_decide (Scenario.cfg_str true [223] false)
           (Scenario.seen "Strasse") eq_refl).
Defined.

(** [find] gives the length of a prefix after which the needle stands. *)
Lemma find_from_spec (needle hay : str) (i : Z) :
  contains needle hay = true ->
  exists pre post,
    hay = pre ++ needle ++ post /\
    find_from needle hay i = (i + Z.of_nat (length pre))%Z.
Proof.
  revert i. induction hay as [|c hay IH]; intros i; cbn [contains find_from].
  - rewrite orb_false_r. intros H. rewrite H.
    apply startswith_split in H as [post Hpost].
    exists [], post. split; [exact Hpost | cbn; lia].
  - destruct (startswith needle (c :: hay)) eqn:E.
    + intros _. apply startswith_split in E as [post Hpost].
      exists [], post. split; [exact Hpost | cbn; lia].
    + cbn [orb]. intros H. destruct (IH (i + 1)%Z H) as (pre & post & -> & Hf).
      exists (c :: pre), post. split; [reflexivity|].
      rewrite Hf. cbn [length]. lia.
Qed.

Lemma find_missing (needle hay : str) (i : Z) :
  contains needle hay = false -> find_from needle hay i = (-1)%Z.
Proof.
  revert i. induction hay as [|c hay IH]; intros i; cbn [contains find_from];
    intros H; apply orb_false_iff in H as [Hs Hc]; rewrite Hs;
    [reflexivity | now apply IH].
Qed.

(** What [lstrip] and [strip] keep. *)
Lemma lstrip_split (s : str) : exists ws, s = ws ++ lstrip s.
Proof.
  induction s as [|c s [ws IH]]; [now exists []|].
  cbn [lstrip]. destruct (is_space c).
  - exists (c :: ws). cbn [app]. now f_equal.
  - now exists [].
Qed.

Lemma lstrip_head (s : str) :
  match lstrip s with
  | [] => True
  | c :: _ => is_space c = false
  end.
Proof.
  induction s as [|c s IH]; [exact I|].
  cbn [lstrip]. destruct (is_space c) eqn:E; [exact IH | exact E].
Qed.

(** Stripping on the left stops at the latest at a character that is not
    white space. *)
Lemma lstrip_keeps (a b : str) (c : N) :
  is_space c = false -> exists a', lstrip (a ++ c :: b) = a' ++ c :: b.
Proof.
  intros Hc. induction a as [|x a [a' IH]]; cbn [app lstrip].
  - exists []. now rewrite Hc.
  - destruct (is_space x); [now exists a' | now exists (x :: a)].
Qed.

(** [strip] cuts white space off both ends: what is left is empty, or
    starts and ends with a character that is not white space. *)
Lemma strip_core (s : str) :
  (exists l r, s = l ++ strip s ++ r) /\
  (strip s = [] \/
   exists c1 t t' c2,
     strip s = c1 :: t /\ strip s = t' ++ [c2] /\
     is_space c1 = false /\ is_space c2 = false).
Proof.
  unfold strip.
  destruct (lstrip_split s) as [ws Hs].
  destruct (lstrip_split (rev (lstrip s))) as [ws' Hr].
  pose proof (lstrip_head s) as Hh1.
  pose proof (lstrip_head (rev (lstrip s))) as Hh2.
  assert (lstrip s = rev (lstrip (rev (lstrip s))) ++ rev ws') as Ht.
  { rewrite <- (rev_involutive (lstrip s)) at 1. rewrite Hr at 1.
    apply rev_app_distr. }
  split.
  - exists ws, (rev ws'). rewrite <- Ht. exact Hs.
  - destruct (lstrip (rev (lstrip s))) as [|c2 u] eqn:Eu; [now left|].
    right. cbn [rev] in *.
    destruct (rev u ++ [c2]) as [|c1 t] eqn:Ev.
    { destruct (rev u); discriminate. }
    exists c1, t, (rev u), c2. repeat split; [exact (eq_sym Ev)| |exact Hh2].
    rewrite Ht in Hh1. exact Hh1.
Qed.

(** A text that holds a needle holds, once stripped, the stripped needle. *)
Lemma strip_contains (needle hay : str) :
  contains needle hay = true -> contains (strip needle) (strip hay) = true.
Proof.
  intros H. apply contains_spec in H as (pre & post & ->).
  destruct (strip_core needle) as [(l & r & Hn) [Hnil|Hcore]].
  { rewrite Hnil. apply contains_nil. }
  destruct Hcore as (c1 & t & t' & c2 & Hc1 & Hc2 & Hs1 & Hs2).
  apply contains_spec.
  destruct (lstrip_keeps (pre ++ l) (t ++ r ++ post) c1 Hs1) as [a' Ha].
  assert (lstrip (pre ++ needle ++ post)
          = (a' ++ t') ++ c2 :: (r ++ post)) as Hleft.
  { rewrite Hn at 1.
    replace (pre ++ (l ++ strip needle ++ r) ++ post)
      with ((pre ++ l) ++ c1 :: t ++ r ++ post)
      by (rewrite Hc1, <- !app_assoc; reflexivity).
    rewrite Ha.
    change (c1 :: t ++ r ++ post) with ((c1 :: t) ++ r ++ post).
    rewrite <- Hc1, Hc2, <- !app_assoc. reflexivity. }
  destruct (lstrip_keeps (rev (r ++ post)) (rev (a' ++ t')) c2 Hs2)
    as [b' Hb].
  exists a', (rev b').
  unfold strip at 1. rewrite Hleft, rev_app_distr. cbn [rev].
  rewrite <- app_assoc. cbn [app]. rewrite Hb.
  rewrite rev_app_distr. cbn [rev]. rewrite rev_involutive.
  rewrite Hc2, <- !app_assoc. reflexivity.
Qed.

(** X8.  The keyword sample shows the match, up to white space at its
    ends.  For a keyword in the range U+0000..U+00FF, when the search
    succeeds with a variation of at most 140 characters, the index that
    [find] gives is not negative, and the sample (the label, then the
    stripped window of 200 characters that starts 60 characters before
    that index, or at the start of the text) holds the lower-cased
    variation with the white space at its ends stripped. *)
Theorem keyword_window (cfg : Config) (o : Observation) (used : str) :
  latin1 (config_keyword cfg) = true ->
  first_variation (search_variations (keyword cfg)) (text_lower o)
  = Some used ->
  (length (lower used) <= 140)%nat ->
  (0 <= find (text_lower o) (lower used))%Z /\
  contains (strip (lower used)) (keyword_sample (text_lower o) used) = true.
Proof.
  intros _. generalize (text_lower o) as text. intros text Hfirst Hlen.
  apply first_variation_contains in Hfirst as [_ Hc].
  destruct (find_from_spec (lower used) text 0 Hc)
    as (pre & post & Htext & Hfind).
  fold (find text (lower used)) in Hfind.
  split; [lia|].
  unfold keyword_sample.
  set (idx := find text (lower used)) in *.
  set (start := Z.max 0 (idx - 60)).
  assert (contains (lower used) (slice text start (start + 200)) = true)
    as Hwin.
  { unfold slice. replace (start + 200 - start)%Z with 200%Z by lia.
    change (Z.to_nat 200) with 200%nat.
    assert (Z.to_nat start <= length pre)%nat as Hstart by (subst start; lia).
    assert (length pre - Z.to_nat start <= 60)%nat as Hnear
      by (subst start; lia).
    rewrite Htext, drop_app_le by exact Hstart.
    apply contains_spec.
    exists (drop (Z.to_nat start) pre),
           (take (200 - length (drop (Z.to_nat start) pre)
                  - length (lower used)) post).
    rewrite take_app, (take_ge (drop _ pre)) by (rewrite length_drop; lia).
    rewrite take_app, (take_ge (lower used)) by (rewrite length_drop; lia).
    reflexivity. }
  apply strip_contains, contains_spec in Hwin as (a & b & Hwin).
  apply contains_spec. exists (lit "Keyword context: " ++ a), b.
  rewrite Hwin, <- !app_assoc. reflexivity.
Qed.

Lemma keyword_window_witness :
  latin1 (config_keyword (Scenario.cfg true "b " false)) = true /\
  first_variation (search_variations (keyword (Scenario.cfg true "b " false)))
    (text_lower (Scenario.seen "ab ")) = Some (lit "b ") /\
  (length (lower (lit "b ")) <= 140)%nat /\
  (0 <= find (text_lower (Scenario.seen "ab ")) (lower (lit "b ")))%Z /\
  contains (strip (lower (lit "b ")))
    (keyword_sample (text_lower (Scenario.seen "ab ")) (lit "b ")) = true.
Proof.
  split; [reflexivity|]. split; [reflexivity|]. split; [cbn; lia|].
  exact (keyword_window (Scenario.cfg true "b " false)
           (Scenario.seen "ab ") (lit "b ")
           eq_refl eq_refl ltac:(cbn; lia)).
Defined.

(** The variation itself can be missing from the sample, when it ends
    with white space at the end of the window. *)
Example sample_without_match :
  keyword_sample (text_lower (Scenario.seen "ab ")) (lit "b ")
  = lit "Keyword context: ab" /\
  contains (lower (lit "b "))
    (keyword_sample (text_lower (Scenario.seen "ab ")) (lit "b ")) = false.
Proof. split; reflexivity. Qed.

(** ** The loop and the process *)

(** What a notifying cycle leaves in memory is what a process would load. *)
Lemma notified_memory (cfg : Config) (env : Env) (m : Mem) (w : World)
  (m' : Mem) (w' : World) (d : Detection) :
  cycle cfg env m w = (m', w', Ok d) ->
  changed d = true ->
  boot (state m') = m'.
Proof.
  intros Hcycle Hch. unfold cycle in Hcycle.
  destruct (observe env) as [o|e]; [|discriminate].
  destruct (check_content cfg o m w) as [[m1 w1] d1].
  destruct (check_keyword cfg o m1 d1) as [m2 d2].
  unfold notify in Hcycle.
  destruct (changed d2) eqn:E; cbn [send_email] in Hcycle;
    injection Hcycle as <- <- <-; [|congruence].
  unfold boot. cbn [state]. f_equal.
  - rewrite dict_get_set_ne by (symmetry; apply keys_differ).
    apply dict_get_set_eq.
  - apply dict_get_set_eq.
Qed.

Lemma consistent_load (path : string) (m : Mem) (w : World) (seen : bool) :
  consistent path m w seen -> load_state path w = Ok (state m).
Proof.
  intros Hinv. unfold load_state. rewrite (inv_file _ _ _ _ Hinv).
  destruct seen.
  - destruct (monitor_state_plain _ (inv_shape _ _ _ _ Hinv)) as [Hnd Hp].
    apply (loads_dumps _ Hnd Hp).
  - now rewrite (inv_fresh _ _ _ _ Hinv).
Qed.



(** X11.  After a cycle that notified, a process that starts again has
    exactly the memory of the one that ran: the state file holds the
    dictionary, and the fingerprint and keyword flag read from it are those
    in memory. *)
Theorem restart_after_notification (cfg : Config) (env : Env) (m : Mem)
  (w : World) (seen : bool) (m' : Mem) (w' : World) (d : Detection) :
  reachable (state_file cfg) m w seen ->
  cycle cfg env m w = (m', w', Ok d) ->
  changed d = true ->
  load_state (state_file cfg) w' = Ok (state m') /\
  boot (state m') = m'.
Proof.
  intros Hreach Hcycle Hch. split.
  - apply reachable_consistent in Hreach.
    apply (consistent_load _ _ _ (seen || completed (Ok d))).
    now apply (cycle_consistent cfg env m w seen).
  - now apply (notified_memory cfg env m w m' w' d).
Qed.

Lemma cycle_last_hash_digest (cfg : Config) (env : Env) (m : Mem) (w : World)
  (m' : Mem) (w' : World) (r : result Detection) :
  cycle cfg env m w = (m', w', r) ->
  last_hash m' = last_hash m \/
  exists bs, last_hash m' = PStr (compute_hash bs).
Proof.
  intros Hcycle. destruct (observe env) as [o|e] eqn:Hobs.
  - rewrite (cycle_observed _ _ _ _ _ Hobs) in Hcycle.
    pose proof (observe_hash env o Hobs) as Hh.
    unfold check_content in Hcycle.
    destruct (is_none (last_hash m));
      [| destruct (negb (py_eqb (PStr (page_hash o)) (last_hash m)))];
      unfold check_keyword, notify in Hcycle;
      (destruct (use_keyword cfg); [destruct (first_variation _ _)|]);
      match type of Hcycle with
      | context [if changed ?d then _ else _] => destruct (changed d)
      end; cbn [send_email] in Hcycle; injection Hcycle as <- _ _;
      cycle_fields;
      first [ now left | right; exists (content o); now rewrite Hh ].
  - unfold cycle in Hcycle. rewrite Hobs in Hcycle.
    injection Hcycle as <- _ _. now left.
Qed.

(** X12.  What the program stores: in every reachable memory the
    fingerprint is [None] or the SHA-256 digest of some content, the keyword
    flag is a boolean, and the state dictionary holds nothing but a
    hexadecimal [last_hash] and a boolean [last_keyword_found]. *)
Theorem stored_values (path : string) (m : Mem) (w : World) (seen : bool) :
  reachable path m w seen ->
  (last_hash m = PNone \/ exists bs, last_hash m = PStr (compute_hash bs)) /\
  (exists b, last_keyword_found m = PBool b) /\
  monitor_state (state m) = true.
Proof.
  intros Hreach.
  pose proof (reachable_consistent _ _ _ _ Hreach) as Hinv.
  split; [|split; [apply (inv_flag _ _ _ _ Hinv)
                  | apply (inv_shape _ _ _ _ Hinv)]].
  clear Hinv.
  induction Hreach as [w Hfile | cfg env m w seen m' w' r Hreach IH Hpath Hcycle
                      | m w seen st Hreach IH Hload].
  - now left.
  - destruct (cycle_last_hash_digest cfg env m w m' w' r Hcycle) as [->|H];
      [exact IH | now right].
  - apply reachable_consistent in Hreach.
    destruct (boot_consistent path m w seen st Hreach Hload) as [-> _].
    cbn [boot last_hash]. now rewrite <- (inv_dict _ _ _ _ Hreach).
Qed.

Lemma skip_ws_blank (text : str) :
  forallb Json.is_ws text = true -> Json.skip_ws text = [].
Proof.
  induction text as [|c text IH]; [reflexivity|].
  cbn [forallb Json.skip_ws]. intros H. apply andb_true_iff in H as [Hc Ht].
  rewrite Hc. now apply IH.
Qed.

(** X13.  An empty or blank state file is fatal: [load_state] raises
    before the loop is entered, so the process ends with code 1 without a
    fetch, a write or a mail. *)
Theorem blank_state_file_fatal (cfg : Config) (envs : list Env) (w : World)
  (text : str) :
  files w !! state_file cfg = Some text ->
  forallb Json.is_ws text = true ->
  load_state (state_file cfg) w = Raise JSONDecodeError /\
  main cfg envs w = (None, w, Exited 1).
Proof.
  intros Hfile Hblank.
  assert (load_state (state_file cfg) w = Raise JSONDecodeError) as Hload.
  { unfold load_state, Json.loads. now rewrite Hfile, (skip_ws_blank _ Hblank). }
  split; [exact Hload|]. unfold main. now rewrite Hload.
Qed.


Lemma stored_values_witness :
  reachable "last_state.json" (fst (fst Scenario.first_cycle))
    (snd (fst Scenario.first_cycle))
    (false || completed (snd Scenario.first_cycle)) /\
  (last_hash (fst (fst Scenario.first_cycle)) = PNone \/
   exists bs, last_hash (fst (fst Scenario.first_cycle))
              = PStr (compute_hash bs)) /\
  (exists b, last_keyword_found (fst (fst Scenario.first_cycle)) = PBool b) /\
  monitor_state (state (fst (fst Scenario.first_cycle))) = true.
Proof.
  assert (reachable "last_state.json" (fst (fst Scenario.first_cycle))
            (snd (fst Scenario.first_cycle))
            (false || completed (snd Scenario.first_cycle))) as Hreach.
  { apply (reach_cycle "last_state.json"
             (Scenario.cfg true "vacancy" false)
             (Scenario.rendered "Rooms available" true)
             Scenario.fresh_mem Scenario.fresh_world false).
    - apply reach_first. reflexivity.
    - reflexivity.
    - unfold Scenario.first_cycle.
      destruct (cycle _ _ _ _) as [[m1 w1] r1]. reflexivity. }
  split; [exact Hreach|].
  exact (stored_values "last_state.json"
           (fst (fst Scenario.first_cycle)) (snd (fst Scenario.first_cycle))
           (false || completed (snd Scenario.first_cycle)) Hreach).
Defined.

Lemma blank_state_file_fatal_witness :
  files {| files := {[ "last_state.json" := [32; 10] ]}; trace := [] |}
    !! state_file (Scenario.cfg true "vacancy" true) = Some [32; 10] /\
  forallb Json.is_ws [32; 10] = true /\
  load_state (state_file (Scenario.cfg true "vacancy" true))
    {| files := {[ "last_state.json" := [32; 10] ]}; trace := [] |}
  = Raise JSONDecodeError /\
  main (Scenario.cfg true "vacancy" true)
    [Scenario.rendered "Rooms available" true]
    {| files := {[ "last_state.json" := [32; 10] ]}; trace := [] |}
  = (None, {| files := {[ "last_state.json" := [32; 10] ]}; trace := [] |},
     Exited 1).
Proof.
  split; [reflexivity|]. split; [reflexivity|].
  exact (blank_state_file_fatal (Scenario.cfg true "vacancy" true)
           [Scenario.rendered "Rooms available" true]
           {| files := {[ "last_state.json" := [32; 10] ]}; trace := [] |}
           [32; 10] eq_refl eq_refl).
Defined.

Lemma restart_after_notification_witness :
  reachable (state_file (Scenario.cfg true "rooms" false))
    Scenario.fresh_mem Scenario.fresh_world false /\
  cycle (Scenario.cfg true "rooms" false)
    (Scenario.rendered "Rooms available" true)
    Scenario.fresh_mem Scenario.fresh_world
  = (fst (fst Scenario.notifying_cycle), snd (fst Scenario.notifying_cycle),
     Ok Scenario.keyword_detection) /\
  changed Scenario.keyword_detection = true /\
  load_state (state_file (Scenario.cfg true "rooms" false))
    (snd (fst Scenario.notifying_cycle))
  = Ok (state (fst (fst Scenario.notifying_cycle))) /\
  boot (state (fst (fst Scenario.notifying_cycle)))
  = fst (fst Scenario.notifying_cycle).
Proof.
  assert (reachable (state_file (Scenario.cfg true "rooms" false))
            Scenario.fresh_mem Scenario.fresh_world false) as Hreach
    by (apply reach_first; reflexivity).
  assert (cycle (Scenario.cfg true "rooms" false)
            (Scenario.rendered "Rooms available" true)
            Scenario.fresh_mem Scenario.fresh_world
          = (fst (fst Scenario.notifying_cycle),
             snd (fst Scenario.notifying_cycle),
             Ok Scenario.keyword_detection)) as Hcycle
    by (vm_compute; reflexivity).
  split; [exact Hreach|]. split; [exact Hcycle|]. split; [reflexivity|].
  exact (restart_after_notification (Scenario.cfg true "rooms" false)
           (Scenario.rendered "Rooms available" true)
           Scenario.fresh_mem Scenario.fresh_world false
           (fst (fst Scenario.notifying_cycle))
           (snd (fst Scenario.notifying_cycle))
           Scenario.keyword_detection Hreach Hcycle eq_refl).
Defined.

Lemma lstrip_length (s : str) : (length (lstrip s) <= length s)%nat.
Proof.
  induction s as [|c s IH]; [reflexivity|].
  cbn [lstrip]. destruct (is_space c); cbn [length]; lia.
Qed.

Lemma strip_length (s : str) : (length (strip s) <= length s)%nat.
Proof.
  unfold strip. rewrite length_rev.
  etransitivity; [apply lstrip_length|]. rewrite length_rev.
  apply lstrip_length.
Qed.

Lemma slice_length (s : str) (lo hi : Z) :
  (length (slice s lo hi) <= Z.to_nat (hi - lo))%nat.
Proof. unfold slice. rewrite length_take. lia. Qed.

(** X15.  The samples are bounded: the content preview and the keyword
    context each have at most 200 characters after their label of 17. *)
Theorem sample_bounds (o : Observation) (text used : str) :
  (length (change_sample o) <= 217)%nat /\
  (length (keyword_sample text used) <= 217)%nat.
Proof.
  unfold change_sample, keyword_sample. cbn zeta. rewrite !length_app.
  split.
  - pose proof (strip_length (slice (text_lower o) 0 200)) as H1.
    pose proof (slice_length (text_lower o) 0 200) as H2.
    change (length (lit "Content preview: ")) with 17%nat. lia.
  - set (start := Z.max 0 (find text (lower used) - 60)).
    pose proof (strip_length (slice text start (start + 200))) as H1.
    pose proof (slice_length text start (start + 200)) as H2.
    change (length (lit "Keyword context: ")) with 17%nat. lia.
Qed.



